(** * Timeline: lane assignment, visible range, item geometry and drag steps

    A shallow embedding of [src/components/Timeline.js] and the properties
    of its layout and drag code.

    Conventions of the embedding.
    - A JavaScript [Date] is its time value: [Some ms] (milliseconds since
      the epoch, UTC) or [None] for an Invalid Date (time value NaN).  A
      number that may be NaN is an [option] in the same way.
    - An item's [start]/[end] field is read only through [new Date(...)] and
      written only through [toISOString().split('T')[0]].  A date string is
      therefore represented by what [Date] makes of it: [YMD d] is the
      calendar-day string (YYYY-MM-DD) of the [d]-th day after 1970-01-01,
      which [new Date] reads as UTC midnight of that day; [Unparseable] is
      any value [new Date] turns into an Invalid Date.
    - [getDate]/[setDate] and [new Date(y, m, d)] work in local time.  The
      local zone is a parameter ([TimeZone]) of every function that uses
      them; a property that needs a zone whose offset never changes says
      so ([fixedOffset]).
    - Time values are unbounded integers: the limit of 100,000,000 days
      either side of 1970-01-01, past which a [Date] is invalid, is not in
      the model.  A property of dates that the code computes is stated for
      days inside the limit ([inDateRange]).
    - Pixel positions and the zoom level are exact rationals ([Q]), and
      1.2 is the rational 6/5.
    - Array entries are objects: reading a property of an item never throws.
      What can throw is [toISOString] on an Invalid Date (RangeError) and a
      property read on [undefined] (TypeError); functions that can throw
      return a [Result]. *)

From Stdlib Require Import ZArith QArith Qround Qminmax Lia Bool String List.
From Stdlib Require Import Sorting.Sorted Sorting.Permutation.
From Stdlib Require Import Qfield Lqa.
Import ListNotations.

Open Scope Z_scope.

(** * The model *)

(** ** Exceptions *)

Inductive Exn : Type := TypeError | RangeError.

Inductive Result (A : Type) : Type :=
| Ok (a : A)
| Throw (e : Exn).

Arguments Ok {A} a.
Arguments Throw {A} e.

Definition bind {A B : Type} (r : Result A) (k : A -> Result B) : Result B :=
  match r with
  | Ok a => k a
  | Throw e => Throw e
  end.

Notation "x <- c ;; k" := (bind c (fun x => k))
  (at level 61, c at next level, right associativity).

(** [arr.map(f)] where [f] may throw: the first exception ends the map. *)
Fixpoint mapM {A B : Type} (f : A -> Result B) (l : list A) : Result (list B) :=
  match l with
  | [] => Ok []
  | x :: l' => y <- f x ;; ys <- mapM f l' ;; Ok (y :: ys)
  end.

(** [for (const x of l) { acc = f(acc, x) }] where [f] may throw. *)
Fixpoint foldM {A B : Type} (f : B -> A -> Result B) (l : list A) (acc : B)
  : Result B :=
  match l with
  | [] => Ok acc
  | x :: l' => acc' <- f acc x ;; foldM f l' acc'
  end.

(** [try { body } catch (e) { handler }] *)
Definition try_catch {A : Type} (body : Result A) (handler : A) : A :=
  match body with
  | Ok a => a
  | Throw _ => handler
  end.

(** ** Dates *)

Definition MS_PER_DAY : Z := 1000 * 60 * 60 * 24.

Inductive DateString : Type :=
| YMD (day : Z)
| Unparseable.

Definition JsDate : Type := option Z.

(** [new Date(s)] *)
Definition newDate (s : DateString) : JsDate :=
  match s with
  | YMD d => Some (d * MS_PER_DAY)
  | Unparseable => None
  end.

(** [a < b] on two Dates: both are converted to numbers, and a comparison
    with NaN is false. *)
Definition date_lt (a b : JsDate) : bool :=
  match a, b with
  | Some x, Some y => x <? y
  | _, _ => false
  end.

(** [a - b] on two Dates: a number, NaN when either is invalid. *)
Definition date_sub (a b : JsDate) : option Z :=
  match a, b with
  | Some x, Some y => Some (x - y)
  | _, _ => None
  end.

(** A time zone, as [Date] uses it: [localOf t] is LocalTime(t), the local
    time of the instant [t], and [utcOf tl] is UTC(tl), the instant of the
    local time [tl]. *)
Record TimeZone : Type := mkZone {
  localOf : Z -> Z;
  utcOf : Z -> Z
}.

(** A zone that is always [c] milliseconds ahead of UTC. *)
Definition fixedZone (c : Z) : TimeZone :=
  {| localOf := fun t => t + c; utcOf := fun tl => tl - c |}.

Definition utcZone : TimeZone := fixedZone 0.

Definition MS_PER_HOUR : Z := 1000 * 60 * 60.

(** America/New_York in 2024: 5 hours behind UTC, and 4 hours behind from
    2024-03-10T07:00Z (day 19792) to 2024-11-03T06:00Z (day 20030).  A
    local time that the change of March skips (02:00 to 03:00) or that the
    change of November repeats (01:00 to 02:00) is read with the offset in
    force before the change. *)
Definition newYork2024 : TimeZone :=
  {| localOf := fun t =>
       if t <? 19792 * MS_PER_DAY + 7 * MS_PER_HOUR then t - 5 * MS_PER_HOUR
       else if t <? 20030 * MS_PER_DAY + 6 * MS_PER_HOUR then t - 4 * MS_PER_HOUR
       else t - 5 * MS_PER_HOUR;
     utcOf := fun tl =>
       if tl <? 19792 * MS_PER_DAY + 3 * MS_PER_HOUR then tl + 5 * MS_PER_HOUR
       else if tl <? 20030 * MS_PER_DAY + 2 * MS_PER_HOUR then tl + 4 * MS_PER_HOUR
       else tl + 5 * MS_PER_HOUR |}.

(** [d.setDate(d.getDate() + n)]: the local time [n] calendar days later,
    at the same time of the day, as an instant. *)
Definition addDays (tz : TimeZone) (d : JsDate) (n : Z) : JsDate :=
  match d with
  | Some t => Some (utcOf tz (localOf tz t + n * MS_PER_DAY))
  | None => None
  end.

(** [d.toISOString().split('T')[0]]: the UTC calendar day of [d];
    [toISOString] throws a RangeError on an Invalid Date. *)
Definition toISODate (d : JsDate) : Result DateString :=
  match d with
  | Some t => Ok (YMD (t / MS_PER_DAY))
  | None => Throw RangeError
  end.

(** ** Items *)

Inductive ItemId : Type :=
| NumId (n : Z)
| StrId (s : string).

Definition ItemId_eq_dec (a b : ItemId) : {a = b} + {a <> b}.
Proof.
  decide equality; [apply Z.eq_dec | apply string_dec].
Defined.

Record Item : Type := mkItem {
  id : ItemId;
  name : string;
  start : DateString;
  end_ : DateString;
  color : option string
}.

Definition Lane : Type := list Item.

(** ** assignLanesToItems (Timeline.js, lines 7-31) *)

(** The comparator of line 12: [new Date(a.start) - new Date(b.start)]. *)
Definition compareStart (a b : Item) : option Z :=
  date_sub (newDate (start a)) (newDate (start b)).

(** [Array.prototype.sort] moves [a] behind [b] only when the comparator
    is positive; a NaN result counts as 0. *)
Definition sortsAfter (a b : Item) : bool :=
  match compareStart a b with
  | Some v => 0 <? v
  | None => false
  end.

(** The sort is stable: an element stays in front of the later elements it
    does not have to go behind.  With valid dates the comparator is a total
    preorder and every stable sort returns this list; with an Invalid Date
    among the starts the comparator is not consistent and the order is left
    to the implementation, of which this is one. *)
Fixpoint insertSorted (x : Item) (l : list Item) : list Item :=
  match l with
  | [] => [x]
  | y :: l' => if sortsAfter x y then y :: insertSorted x l' else x :: y :: l'
  end.

Definition sortByStart (items : list Item) : list Item :=
  fold_right insertSorted [] items.

(** [lane[lane.length - 1]]: [undefined] on an empty array. *)
Fixpoint lastItem (lane : Lane) : option Item :=
  match lane with
  | [] => None
  | [x] => Some x
  | _ :: l => lastItem l
  end.

(** Lines 17-25.  The loop over [lanes] stops at the first lane whose last
    item ends before [item] starts; otherwise a new lane is pushed. *)
Fixpoint assignItemToLane (lanes : list Lane) (item : Item)
  : Result (list Lane) :=
  match lanes with
  | [] => Ok [[item]]
  | lane :: rest =>
      match lastItem lane with
      | None => Throw TypeError
      | Some l =>
          if date_lt (newDate (end_ l)) (newDate (start item))
          then Ok ((lane ++ [item]) :: rest)
          else rest' <- assignItemToLane rest item ;; Ok (lane :: rest')
      end
  end.

(** [items] is [None] for [null]/[undefined]. *)
Definition assignLanesToItems (items : option (list Item))
  : Result (list Lane) :=
  match items with
  | None => Ok []
  | Some [] => Ok []
  | Some l => foldM assignItemToLane (sortByStart l) []
  end.

(** The effect of lines 114-122: an exception of the assignment leaves the
    component with no lanes. *)
Definition computeLanes (items : option (list Item)) : list Lane :=
  try_catch (assignLanesToItems items) [].

(** ** calculateDateRange (lines 48-80) *)

Record DateRange : Type := mkRange {
  minDate : JsDate;
  maxDate : JsDate
}.

(** [new Date(today.getFullYear(), today.getMonth(), today.getDate() + n)]
    for [today = new Date(now)]: local midnight of the local day [n] days
    after today, as an instant.  (A year from 0 to 99 would be read as
    1900 + year; properties of this window take a clock that is not before
    1970.) *)
Definition midnightPlusDays (tz : TimeZone) (now n : Z) : JsDate :=
  Some (utcOf tz ((localOf tz now / MS_PER_DAY + n) * MS_PER_DAY)).

(** The window of lines 50-54 and 74-78; [now] is the time value of
    [new Date()]. *)
Definition defaultRange (tz : TimeZone) (now : Z) : DateRange :=
  {| minDate := Some now; maxDate := midnightPlusDays tz now 30 |}.

(** [new Date(Math.min(...ts))]: NaN as soon as one argument is NaN.  With
    no argument [Math.min()] is [Infinity], which gives an Invalid Date. *)
Fixpoint minTime (ts : list (option Z)) : JsDate :=
  match ts with
  | [] => None
  | [t] => t
  | t :: ts' =>
      match t, minTime ts' with
      | Some a, Some b => Some (Z.min a b)
      | _, _ => None
      end
  end.

(** [new Date(Math.max(...ts))] *)
Fixpoint maxTime (ts : list (option Z)) : JsDate :=
  match ts with
  | [] => None
  | [t] => t
  | t :: ts' =>
      match t, maxTime ts' with
      | Some a, Some b => Some (Z.max a b)
      | _, _ => None
      end
  end.

(** The [try] block of lines 58-71.  Nothing in it throws on an array of
    objects: an Invalid Date goes through [getTime], [Math.min],
    [new Date] and [setDate] as NaN. *)
Definition paddedRange (tz : TimeZone) (l : list Item) : Result DateRange :=
  let minD := minTime (map (fun item => newDate (start item)) l) in
  let maxD := maxTime (map (fun item => newDate (end_ item)) l) in
  Ok {| minDate := addDays tz minD (-7); maxDate := addDays tz maxD 7 |}.

Definition calculateDateRange (tz : TimeZone) (now : Z)
  (its : option (list Item)) : DateRange :=
  match its with
  | None => defaultRange tz now
  | Some [] => defaultRange tz now
  | Some l => try_catch (paddedRange tz l) (defaultRange tz now)
  end.

(** ** getItemStyle (lines 131-150) *)

Record ItemStyle : Type := mkStyle {
  left : option Q;             (* the number in front of "px"; None is NaN *)
  width : option Q;
  backgroundColor : string
}.

(** [Math.floor(x / (1000 * 60 * 60 * 24))] *)
Definition floorDays (x : option Z) : option Z :=
  option_map (fun v => v / MS_PER_DAY) x.

(** [Math.ceil(x / (1000 * 60 * 60 * 24))] *)
Definition ceilDays (x : option Z) : option Z :=
  option_map (fun v => - ((- v) / MS_PER_DAY)) x.

Definition defaultColor : string := "#4287f5".

(** [item.color || '#4287f5']: a missing or empty colour is falsy. *)
Definition colorOrDefault (c : option string) : string :=
  match c with
  | Some s => if string_dec s "" then defaultColor else s
  | None => defaultColor
  end.

(** The [try] block of lines 133-141. *)
Definition itemStyle (minD : JsDate) (zoom : Q) (item : Item)
  : Result ItemStyle :=
  let startDays := floorDays (date_sub (newDate (start item)) minD) in
  let endDays := ceilDays (date_sub (newDate (end_ item)) minD) in
  let itemWidth :=
    match endDays, startDays with
    | Some e, Some s => Some (Qmax (inject_Z (e - s) * 24 * zoom) 80)
    | _, _ => None
    end in
  Ok {| left := option_map (fun s => inject_Z s * 24 * zoom)%Q startDays;
        width := itemWidth;
        backgroundColor := colorOrDefault (color item) |}.

Definition getItemStyle (minD : JsDate) (zoom : Q) (item : Item) : ItemStyle :=
  try_catch (itemStyle minD zoom item)
    {| left := Some 0%Q; width := Some 80%Q; backgroundColor := defaultColor |}.

(** ** handleZoom (lines 153-158) *)

(** The updater of the zoom level; 1.2 is taken as the rational 6/5. *)
Definition handleZoom (zoomIn : bool) (prevZoom : Q) : Q :=
  let newZoom := (if zoomIn then prevZoom * (6 # 5) else prevZoom / (6 # 5))%Q in
  Qmax (1 # 2) (Qmin 5 newZoom).

(** ** handleDrag (lines 169-210) *)

Inductive DragType : Type := DragStart | DragEnd | DragMove.

Record State : Type := mkState {
  items : list Item;
  zoomLevel : Q;
  draggingItem : option Item;
  dragType : option DragType;      (* None is the initial [null] *)
  dragStartX : Q
}.

(** Line 173: [Math.round(deltaX / (24 * zoomLevel))].  [Math.round] takes
    the nearest integer and, halfway, the larger one: [floor (x + 1/2)].
    The zoom level starts at 1 and [handleZoom] keeps it in [0.5, 5], so
    the divisor is not zero.  The quotient is exact here and rounded to a
    double in the code, so the two can differ when the exact quotient is
    within a rounding error of a half. *)
Definition daysDelta (deltaX zoom : Q) : Z :=
  Qfloor (deltaX / (24 * zoom) + (1 # 2))%Q.

(** [a > b] on two Dates. *)
Definition date_gt (a b : JsDate) : bool := date_lt b a.

Definition setStart (item : Item) (s : DateString) : Item :=
  {| id := id item; name := name item; start := s;
     end_ := end_ item; color := color item |}.

Definition setEnd (item : Item) (e : DateString) : Item :=
  {| id := id item; name := name item; start := start item;
     end_ := e; color := color item |}.

(** Lines 183-207: what the updater does to the item that is dragged.
    [itemCopy] has the fields of [item]. *)
Definition dragItem (tz : TimeZone) (mode : option DragType) (delta : Z)
  (item : Item) : Result Item :=
  let s := newDate (start item) in
  let e := newDate (end_ item) in
  match mode with
  | Some DragStart =>
      let s' := addDays tz s delta in
      if date_lt s' e
      then iso <- toISODate s' ;; Ok (setStart item iso)
      else Ok item
  | Some DragEnd =>
      let e' := addDays tz e delta in
      if date_gt e' s
      then iso <- toISODate e' ;; Ok (setEnd item iso)
      else Ok item
  | Some DragMove =>
      isoS <- toISODate (addDays tz s delta) ;;
      isoE <- toISODate (addDays tz e delta) ;;
      Ok (setEnd (setStart item isoS) isoE)
  | None => Ok item
  end.

(** Lines 180-208: the callback of [prevItems.map]. *)
Definition updateItem (tz : TimeZone) (target : Item) (mode : option DragType)
  (delta : Z) (item : Item) : Result Item :=
  if ItemId_eq_dec (id item) (id target) then dragItem tz mode delta item
  else Ok item.

(** One pointer-move event at [clientX].  An exception of the updater is an
    exception of the step. *)
Definition handleDrag (tz : TimeZone) (st : State) (clientX : Q)
  : Result State :=
  match draggingItem st with
  | None => Ok st
  | Some target =>
      let deltaX := (clientX - dragStartX st)%Q in
      let delta := daysDelta deltaX (zoomLevel st) in
      if delta =? 0 then Ok st
      else
        items' <- mapM (updateItem tz target (dragType st) delta) (items st) ;;
        Ok {| items := items';
              zoomLevel := zoomLevel st;
              draggingItem := draggingItem st;
              dragType := dragType st;
              dragStartX := clientX |}
  end.

(** ** totalDays and the width of the timeline (lines 128, 335, 341) *)

(** [Math.max(1, Math.ceil((maxDate - minDate) / (1000 * 60 * 60 * 24)))];
    [Math.max] of a number and NaN is NaN. *)
Definition totalDays (r : DateRange) : option Z :=
  option_map (Z.max 1) (ceilDays (date_sub (maxDate r) (minDate r))).

(** The number in front of "px" in [width: totalDays * 24 * zoomLevel]. *)
Definition timelineWidth (r : DateRange) (zoom : Q) : option Q :=
  option_map (fun d => inject_Z d * 24 * zoom)%Q (totalDays r).

(** ** startDrag and endDrag (lines 161-166, 213-216) *)

Definition startDrag (st : State) (clientX : Q) (item : Item) (type : DragType)
  : State :=
  {| items := items st;
     zoomLevel := zoomLevel st;
     draggingItem := Some item;
     dragType := Some type;
     dragStartX := clientX |}.

Definition endDrag (st : State) : State :=
  {| items := items st;
     zoomLevel := zoomLevel st;
     draggingItem := None;
     dragType := None;
     dragStartX := dragStartX st |}.

(** ** startEdit and saveEdit (lines 219-239) *)

Record EditState : Type := mkEdit {
  editingItem : option ItemId;     (* None is [null] *)
  editingText : string
}.

(** Lines 221-222. *)
Definition startEdit (item : Item) : EditState :=
  {| editingItem := Some (id item); editingText := name item |}.

(** [!editingItem]: [null], the number 0 and the empty string are falsy. *)
Definition falsyId (e : option ItemId) : bool :=
  match e with
  | None => true
  | Some (NumId n) => n =? 0
  | Some (StrId s) => if string_dec s "" then true else false
  end.

Definition setName (item : Item) (n : string) : Item :=
  {| id := id item; name := n; start := start item;
     end_ := end_ item; color := color item |}.

(** Lines 230-234: the callback of [prevItems.map] in [saveEdit]. *)
Definition renameItem (e : option ItemId) (text : string) (item : Item) : Item :=
  match e with
  | Some i => if ItemId_eq_dec (id item) i then setName item text else item
  | None => item
  end.

(** Lines 226-239: the items and the edit state after [saveEdit]. *)
Definition saveEdit (its : list Item) (ed : EditState) : list Item * EditState :=
  if falsyId (editingItem ed) then (its, ed)
  else (map (renameItem (editingItem ed) (editingText ed)) its,
        {| editingItem := None; editingText := "" |}).

(** * Vocabulary of the properties *)

(** ** Dates in days *)

(** The day a date string stands for (0 when there is none). *)
Definition dayOf (s : DateString) : Z :=
  match s with
  | YMD d => d
  | Unparseable => 0
  end.

Definition parseable (s : DateString) : bool :=
  match s with
  | YMD _ => true
  | Unparseable => false
  end.

(** Both dates of the item are calendar days. *)
Definition hasValidDates (i : Item) : bool :=
  parseable (start i) && parseable (end_ i).

Definition startDay (i : Item) : Z := dayOf (start i).
Definition endDay (i : Item) : Z := dayOf (end_ i).

(** ** Lanes *)

Definition leStart (a b : Item) : Prop := startDay a <= startDay b.

(** The test of line 19 on the last item of a lane. *)
Definition endsBefore (lane : Lane) (x : Item) (b : bool) : Prop :=
  exists l, lastItem lane = Some l
            /\ date_lt (newDate (end_ l)) (newDate (start x)) = b.

(** [a] ends before [b] starts. *)
Definition before (a b : Item) : Prop := endDay a < startDay b.

(** The item covers the instant [t] (a time value): [start <= t <= end]. *)
Definition covers (t : Z) (i : Item) : bool :=
  match newDate (start i), newDate (end_ i) with
  | Some s, Some e => (s <=? t) && (t <=? e)
  | _, _ => false
  end.

(** The number of items of [l] whose interval contains the instant [t]. *)
Definition overlapAt (t : Z) (l : list Item) : nat :=
  length (filter (covers t) l).

(** Some instant lies in an item of every lane. *)
Definition Crowded (lanes : list Lane) : Prop :=
  exists t, Forall (fun lane => Exists (fun a => covers t a = true) lane) lanes.

(** The first item of every lane, in the order of the lanes. *)
Definition firstItems (lanes : list Lane) : list Item :=
  flat_map (firstn 1) lanes.

(** [l1] is [l2] with some elements left out. *)
Inductive Subseq {A : Type} : list A -> list A -> Prop :=
| Subseq_nil : Subseq [] []
| Subseq_skip (x : A) (l1 l2 : list A) : Subseq l1 l2 -> Subseq l1 (x :: l2)
| Subseq_take (x : A) (l1 l2 : list A) : Subseq l1 l2 -> Subseq (x :: l1) (x :: l2).

(** What holds of a lane while the items [todo] are still to be placed. *)
Definition LaneOk (todo : list Item) (lane : Lane) : Prop :=
  lane <> []
  /\ Forall (fun i => hasValidDates i = true) lane
  /\ StronglySorted before lane
  /\ Forall (fun a => Forall (leStart a) todo) lane.

(** Neither item passes the test of line 19 against the other. *)
Definition overlap (a b : Item) : bool :=
  negb (date_lt (newDate (end_ a)) (newDate (start b)))
  && negb (date_lt (newDate (end_ b)) (newDate (start a))).

(** Items that overlap pairwise. *)
Definition Clique (c : list Item) : Prop :=
  ForallOrdPairs (fun a b => overlap a b = true) c.

(** [a.start < b.start] and [a.end < b.start], as the code compares dates. *)
Definition laneOrder (a b : Item) : Prop :=
  date_lt (newDate (start a)) (newDate (start b)) = true
  /\ date_lt (newDate (end_ a)) (newDate (start b)) = true.

(** ** Visible range *)

Definition isMinOf (m : Z) (xs : list Z) : Prop :=
  In m xs /\ Forall (fun x => m <= x) xs.

Definition isMaxOf (m : Z) (xs : list Z) : Prop :=
  In m xs /\ Forall (fun x => x <= m) xs.

(** ** Drag steps *)

(** [start < end] as the code compares the two dates. *)
Definition startsBeforeEnd (i : Item) : bool :=
  date_lt (newDate (start i)) (newDate (end_ i)).

(** A sequence of drag steps on one item, each with its mode and its day
    delta. *)
Definition dragSteps (tz : TimeZone) (steps : list (DragType * Z)) (item : Item)
  : Result Item :=
  foldM (fun it step => dragItem tz (Some (fst step)) (snd step) it) steps item.

(** ** Further vocabulary *)

(** The test of line 19 between two items: [a] ends before [b] starts, as
    the code compares the two dates. *)
Definition passesTest (a b : Item) : Prop :=
  date_lt (newDate (end_ a)) (newDate (start b)) = true.

(** The zoom level after a sequence of presses on the zoom buttons
    ([true] is "Zoom In"), from the initial level 1 of line 37. *)
Definition zoomAfter (presses : list bool) : Q :=
  fold_left (fun z zoomIn => handleZoom zoomIn z) presses 1%Q.

(** A sequence of pointer-move events. *)
Definition pointerMoves (tz : TimeZone) (xs : list Q) (st : State)
  : Result State :=
  foldM (handleDrag tz) xs st.

(** The item with both dates [n] days later. *)
Definition shiftDays (n : Z) (i : Item) : Item :=
  setEnd (setStart i (YMD (startDay i + n))) (YMD (endDay i + n)).


(** [Math.min] and [Math.max] of two numbers, NaN when either is NaN. *)
Definition minNum (a b : option Z) : option Z :=
  match a, b with
  | Some x, Some y => Some (Z.min x y)
  | _, _ => None
  end.

Definition maxNum (a b : option Z) : option Z :=
  match a, b with
  | Some x, Some y => Some (Z.max x y)
  | _, _ => None
  end.

(** The offset of the zone never changes. *)
Definition fixedOffset (tz : TimeZone) : Prop :=
  exists c, (forall t, localOf tz t = t + c) /\ (forall tl, utcOf tz tl = tl - c).

(** The days a [Date] can hold. *)
Definition inDateRange (d : Z) : Prop := -100000000 <= d <= 100000000.

(** ** Sample items and states *)

Definition day_2024_01_01 : Z := 19723.

Definition itemA : Item :=
  mkItem (NumId 1) "A" (YMD day_2024_01_01) (YMD (day_2024_01_01 + 4)) None.
Definition itemB : Item :=
  mkItem (NumId 2) "B" (YMD (day_2024_01_01 + 2)) (YMD (day_2024_01_01 + 6)) None.
Definition itemC : Item :=
  mkItem (NumId 3) "C" (YMD (day_2024_01_01 + 5)) (YMD (day_2024_01_01 + 9)) None.



(** From 2024-11-01 to 2024-11-10. *)
Definition itemNov1 : Item :=
  mkItem (NumId 6) "N" (YMD 20028) (YMD 20037) None.

Definition itemInverted : Item :=
  mkItem (NumId 5) "X" (YMD (day_2024_01_01 + 2)) (YMD (day_2024_01_01 - 2)) None.

Definition itemBadStart : Item :=
  mkItem (NumId 1) "A" Unparseable (YMD (day_2024_01_01 + 4)) None.

Definition dragStateA : State :=
  {| items := [itemA];
     zoomLevel := 1;
     draggingItem := Some itemA;
     dragType := Some DragMove;
     dragStartX := 0 |}.

Definition dragBadState : State :=
  {| items := [itemBadStart];
     zoomLevel := 1;
     draggingItem := Some itemBadStart;
     dragType := Some DragMove;
     dragStartX := 0 |}.

(** * Properties *)

(** ** The scenarios of the specification, run on the model *)

Example scenario_lanes :
  assignLanesToItems (Some [itemC; itemA; itemB])
  = Ok [[itemA; itemC]; [itemB]].
Proof. vm_compute. reflexivity. Qed.

Example scenario_empty (tz : TimeZone) (now : Z) :
  calculateDateRange tz now (Some []) = defaultRange tz now
  /\ assignLanesToItems (Some []) = Ok [].
Proof. split; reflexivity. Qed.

Example scenario_move :
  dragItem utcZone (Some DragMove) (daysDelta 72 1) itemA
  = Ok (mkItem (NumId 1) "A" (YMD (day_2024_01_01 + 3))
               (YMD (day_2024_01_01 + 7)) None).
Proof. vm_compute. reflexivity. Qed.

(** ** Day arithmetic *)

Lemma MS_PER_DAY_pos : 0 < MS_PER_DAY.
Proof. reflexivity. Qed.

Lemma days_div (d : Z) : d * MS_PER_DAY / MS_PER_DAY = d.
Proof. apply Z.div_mul. discriminate. Qed.

Lemma days_add_div (d n : Z) :
  (d * MS_PER_DAY + n * MS_PER_DAY) / MS_PER_DAY = d + n.
Proof. rewrite <- Z.mul_add_distr_r. apply days_div. Qed.

Lemma days_lt (a b : Z) : a * MS_PER_DAY < b * MS_PER_DAY <-> a < b.
Proof.
  pose proof MS_PER_DAY_pos. split; intros; nia.
Qed.

Lemma days_le (a b : Z) : a * MS_PER_DAY <= b * MS_PER_DAY <-> a <= b.
Proof.
  pose proof MS_PER_DAY_pos. split; intros; nia.
Qed.

Lemma fixedZone_fixed (c : Z) : fixedOffset (fixedZone c).
Proof. exists c. split; reflexivity. Qed.

Lemma utcZone_fixed : fixedOffset utcZone.
Proof. apply fixedZone_fixed. Qed.

(** Where the offset never changes, [setDate(getDate() + n)] moves the
    time value by [n] whole days. *)
Lemma addDays_fixed (tz : TimeZone) (d : JsDate) (n : Z) :
  fixedOffset tz ->
  addDays tz d n = option_map (fun t => t + n * MS_PER_DAY) d.
Proof.
  intros [c [Hl Hu]]. destruct d as [t|]; simpl; [|reflexivity].
  rewrite Hl, Hu. f_equal. lia.
Qed.

Lemma valid_start (i : Item) :
  hasValidDates i = true -> start i = YMD (startDay i).
Proof.
  unfold hasValidDates, startDay. destruct (start i); simpl; congruence.
Qed.

Lemma valid_end (i : Item) :
  hasValidDates i = true -> end_ i = YMD (endDay i).
Proof.
  unfold hasValidDates, endDay.
  destruct (start i), (end_ i); simpl; congruence.
Qed.

Lemma date_lt_days (a b : DateString) :
  parseable a = true -> parseable b = true ->
  date_lt (newDate a) (newDate b) = (dayOf a <? dayOf b).
Proof.
  destruct a as [x|], b as [y|]; simpl; try discriminate. intros _ _.
  pose proof MS_PER_DAY_pos.
  destruct (Z.ltb_spec (x * MS_PER_DAY) (y * MS_PER_DAY));
    destruct (Z.ltb_spec x y); try reflexivity; nia.
Qed.

Lemma end_before_start_days (a b : Item) :
  hasValidDates a = true -> hasValidDates b = true ->
  date_lt (newDate (end_ a)) (newDate (start b)) = (endDay a <? startDay b).
Proof.
  unfold hasValidDates. intros Ha Hb.
  apply andb_true_iff in Ha, Hb.
  apply date_lt_days; tauto.
Qed.

Lemma start_lt_days (a b : Item) :
  hasValidDates a = true -> hasValidDates b = true ->
  date_lt (newDate (start a)) (newDate (start b)) = (startDay a <? startDay b).
Proof.
  unfold hasValidDates. intros Ha Hb.
  apply andb_true_iff in Ha, Hb.
  apply date_lt_days; tauto.
Qed.

Lemma covers_days (d : Z) (i : Item) :
  hasValidDates i = true ->
  covers (d * MS_PER_DAY) i = (startDay i <=? d) && (d <=? endDay i).
Proof.
  intros Hv. unfold covers.
  rewrite (valid_start i Hv), (valid_end i Hv). simpl.
  pose proof MS_PER_DAY_pos.
  f_equal.
  - destruct (Z.leb_spec (startDay i * MS_PER_DAY) (d * MS_PER_DAY));
      destruct (Z.leb_spec (startDay i) d); try reflexivity; nia.
  - destruct (Z.leb_spec (d * MS_PER_DAY) (endDay i * MS_PER_DAY));
      destruct (Z.leb_spec d (endDay i)); try reflexivity; nia.
Qed.

(** ** Lanes: the sort *)

Lemma insertSorted_perm (x : Item) (l : list Item) :
  Permutation (insertSorted x l) (x :: l).
Proof.
  induction l as [|y l IH]; simpl.
  - apply Permutation_refl.
  - destruct (sortsAfter x y).
    + apply Permutation_trans with (y :: x :: l).
      * now apply perm_skip.
      * apply perm_swap.
    + apply Permutation_refl.
Qed.

Lemma sortByStart_perm (l : list Item) : Permutation (sortByStart l) l.
Proof.
  induction l as [|x l IH]; simpl.
  - apply perm_nil.
  - apply Permutation_trans with (x :: sortByStart l).
    + apply insertSorted_perm.
    + now apply perm_skip.
Qed.

Lemma sortsAfter_days (a b : Item) :
  hasValidDates a = true -> hasValidDates b = true ->
  sortsAfter a b = (startDay b <? startDay a).
Proof.
  intros Ha Hb. unfold sortsAfter, compareStart.
  rewrite (valid_start a Ha), (valid_start b Hb). simpl.
  rewrite <- Z.mul_sub_distr_r.
  pose proof MS_PER_DAY_pos.
  destruct (Z.ltb_spec 0 ((startDay a - startDay b) * MS_PER_DAY));
    destruct (Z.ltb_spec (startDay b) (startDay a)); try reflexivity; nia.
Qed.

Lemma insertSorted_sorted (x : Item) (l : list Item) :
  hasValidDates x = true ->
  Forall (fun i => hasValidDates i = true) l ->
  StronglySorted leStart l ->
  StronglySorted leStart (insertSorted x l).
Proof.
  intros Hx Hv Hs. induction Hs as [|y l Hs IH Hy]; simpl.
  - repeat constructor.
  - inversion Hv as [|? ? Hvy Hvl]; subst.
    rewrite (sortsAfter_days x y Hx Hvy).
    destruct (Z.ltb_spec (startDay y) (startDay x)) as [Hlt|Hge].
    + constructor; [now apply IH|].
      eapply Permutation_Forall.
      * apply Permutation_sym, insertSorted_perm.
      * constructor; [unfold leStart; lia | assumption].
    + constructor; [now constructor|].
      constructor; [exact Hge|].
      eapply Forall_impl; [|exact Hy]. unfold leStart. intros; lia.
Qed.

Lemma sortByStart_sorted (l : list Item) :
  Forall (fun i => hasValidDates i = true) l ->
  StronglySorted leStart (sortByStart l).
Proof.
  induction 1 as [|x l Hx Hl IH]; simpl.
  - constructor.
  - apply insertSorted_sorted; [assumption| |assumption].
    eapply Permutation_Forall; [|exact Hl].
    apply Permutation_sym, sortByStart_perm.
Qed.

(** ** Lanes: one placement *)

Lemma lastItem_app (l : Lane) (x : Item) : lastItem (l ++ [x]) = Some x.
Proof.
  induction l as [|y l IH]; [reflexivity|].
  simpl. destruct (l ++ [x]) eqn:E; [|exact IH].
  destruct l; discriminate.
Qed.

Lemma lastItem_In (l : Lane) (a : Item) : lastItem l = Some a -> In a l.
Proof.
  induction l as [|y l IH]; [discriminate|].
  simpl. destruct l as [|z l'].
  - intros [= ->]. now left.
  - intros H. right. now apply IH.
Qed.

Lemma lastItem_nonempty (l : Lane) : l <> [] -> exists a, lastItem l = Some a.
Proof.
  induction l as [|y l IH]; [congruence|].
  intros _. destruct l as [|z l'].
  - exists y. reflexivity.
  - destruct IH as [a Ha]; [discriminate|]. exists a. exact Ha.
Qed.

Lemma lastItem_split (l : Lane) (a : Item) :
  lastItem l = Some a -> exists l0, l = l0 ++ [a].
Proof.
  induction l as [|y l IH]; [discriminate|].
  simpl. destruct l as [|z l'].
  - intros [= ->]. exists []. reflexivity.
  - intros H. destruct (IH H) as [l0 ->]. exists (y :: l0). reflexivity.
Qed.

(** [assignItemToLane] appends the item to the first lane whose last item
    ends before the item starts, and opens a lane at the end when there is
    none.  It does not throw as long as no lane is empty. *)
Lemma assignItemToLane_shape (lanes : list Lane) (x : Item) :
  Forall (fun lane => lane <> []) lanes ->
  (exists pre lane post,
      lanes = pre ++ lane :: post
      /\ Forall (fun ln => endsBefore ln x false) pre
      /\ endsBefore lane x true
      /\ assignItemToLane lanes x = Ok (pre ++ (lane ++ [x]) :: post))
  \/ (Forall (fun ln => endsBefore ln x false) lanes
      /\ assignItemToLane lanes x = Ok (lanes ++ [[x]])).
Proof.
  induction 1 as [|lane rest Hne Hrest IH].
  - right. split; [constructor | reflexivity].
  - destruct (lastItem_nonempty lane Hne) as [l Hl].
    simpl. rewrite Hl.
    destruct (date_lt (newDate (end_ l)) (newDate (start x))) eqn:Hlt.
    + left. exists [], lane, rest.
      split; [reflexivity|]. split; [constructor|].
      split; [exists l; auto | reflexivity].
    + destruct IH as [[pre [ln [post [-> [Hpre [Hacc ->]]]]]]|[Hall ->]].
      * left. exists (lane :: pre), ln, post.
        split; [reflexivity|].
        split; [constructor; [exists l; auto | assumption]|].
        split; [assumption | reflexivity].
      * right. split; [|reflexivity].
        constructor; [exists l; auto | assumption].
Qed.

Lemma assignItemToLane_nonempty (lanes lanes' : list Lane) (x : Item) :
  Forall (fun lane => lane <> []) lanes ->
  assignItemToLane lanes x = Ok lanes' ->
  Forall (fun lane => lane <> []) lanes'.
Proof.
  intros Hne Hok.
  destruct (assignItemToLane_shape lanes x Hne)
    as [[pre [ln [post [-> [_ [_ H]]]]]]|[_ H]];
    rewrite H in Hok; injection Hok as <-.
  - apply Forall_app in Hne. destruct Hne as [Hpre Hpost].
    inversion Hpost; subst.
    apply Forall_app. split; [assumption|].
    constructor; [|assumption]. destruct ln; discriminate.
  - apply Forall_app. split; [assumption|].
    constructor; [discriminate | constructor].
Qed.

(** The loop of lines 27-29 returns for every array of items. *)
Lemma foldM_assign_total (todo : list Item) (lanes : list Lane) :
  Forall (fun lane => lane <> []) lanes ->
  exists lanes', foldM assignItemToLane todo lanes = Ok lanes'
                 /\ Forall (fun lane => lane <> []) lanes'.
Proof.
  revert lanes. induction todo as [|x todo IH]; intros lanes Hne; simpl.
  - eauto.
  - assert (Hstep : exists l1, assignItemToLane lanes x = Ok l1).
    { destruct (assignItemToLane_shape lanes x Hne)
        as [[pre [ln [post [_ [_ [_ H]]]]]]|[_ H]]; eauto. }
    destruct Hstep as [l1 H1]. rewrite H1. simpl.
    apply IH. eapply assignItemToLane_nonempty; eassumption.
Qed.

(** Lane assignment never throws, whatever the dates of the items are. *)
Lemma assignLanesToItems_total (its : option (list Item)) :
  exists lanes, assignLanesToItems its = Ok lanes.
Proof.
  destruct its as [[|i l]|]; simpl; eauto.
  destruct (foldM_assign_total (sortByStart (i :: l)) []) as [lanes [H _]].
  - constructor.
  - eauto.
Qed.

(** ** Lanes: the invariant of the loop *)

Lemma StronglySorted_snoc_inv {A : Type} (R : A -> A -> Prop) (l : list A) (x : A) :
  StronglySorted R (l ++ [x]) -> Forall (fun a => R a x) l.
Proof.
  induction l as [|y l IH]; simpl; intros H; [constructor|].
  inversion H as [|? ? Hs Hy]; subst.
  constructor; [|now apply IH].
  apply Forall_app in Hy. destruct Hy as [_ Hx]. now inversion Hx.
Qed.

Lemma StronglySorted_snoc {A : Type} (R : A -> A -> Prop) (l : list A) (x : A) :
  StronglySorted R l -> Forall (fun a => R a x) l -> StronglySorted R (l ++ [x]).
Proof.
  induction 1 as [|y l Hs IH Hy]; simpl; intros Hx.
  - repeat constructor.
  - inversion Hx; subst.
    constructor; [now apply IH|].
    apply Forall_app. split; [assumption | now repeat constructor].
Qed.

Lemma LaneOk_tail (x : Item) (todo : list Item) (lane : Lane) :
  LaneOk (x :: todo) lane -> LaneOk todo lane.
Proof.
  intros [Hne [Hv [Hs Hle]]]. repeat split; try assumption.
  eapply Forall_impl; [|exact Hle]. intros a Ha. now inversion Ha.
Qed.

Lemma LaneOk_single (x : Item) (todo : list Item) :
  hasValidDates x = true -> Forall (leStart x) todo -> LaneOk todo [x].
Proof.
  intros Hv Hle. repeat split.
  - discriminate.
  - now repeat constructor.
  - repeat constructor.
  - now repeat constructor.
Qed.

Lemma LaneOk_push (x : Item) (todo : list Item) (lane : Lane) :
  hasValidDates x = true -> Forall (leStart x) todo ->
  LaneOk (x :: todo) lane -> endsBefore lane x true ->
  LaneOk todo (lane ++ [x]).
Proof.
  intros Hx Hle [Hne [Hv [Hs Hlane]]] [l [Hl Hlt]].
  assert (Hin : In l lane) by now apply lastItem_In.
  assert (Hvl : hasValidDates l = true).
  { rewrite Forall_forall in Hv. now apply Hv. }
  rewrite (end_before_start_days l x Hvl Hx) in Hlt. apply Z.ltb_lt in Hlt.
  assert (Hlx : leStart l x).
  { rewrite Forall_forall in Hlane. specialize (Hlane l Hin).
    now inversion Hlane. }
  repeat split.
  - destruct lane; discriminate.
  - apply Forall_app. split; [assumption | now repeat constructor].
  - apply StronglySorted_snoc; [assumption|].
    destruct (lastItem_split lane l Hl) as [l0 ->].
    apply Forall_app. split; [|now repeat constructor].
    eapply Forall_impl; [|apply (StronglySorted_snoc_inv before l0 l Hs)].
    unfold before, leStart in *. intros a Ha. simpl in Ha. lia.
  - apply Forall_app. split; [|now repeat constructor].
    eapply Forall_impl; [|exact Hlane]. intros a Ha. now inversion Ha.
Qed.

Lemma firstn1_snoc (lane : Lane) (x : Item) :
  lane <> [] -> firstn 1 (lane ++ [x]) = firstn 1 lane.
Proof. destruct lane; [congruence | reflexivity]. Qed.

(** One placement keeps the invariant. *)
Lemma assignItemToLane_step (lanes : list Lane) (x : Item) (todo : list Item) :
  hasValidDates x = true -> Forall (leStart x) todo ->
  Forall (LaneOk (x :: todo)) lanes ->
  exists lanes',
    assignItemToLane lanes x = Ok lanes'
    /\ Forall (LaneOk todo) lanes'
    /\ Permutation (concat lanes') (concat lanes ++ [x])
    /\ (firstItems lanes' = firstItems lanes
        \/ firstItems lanes' = firstItems lanes ++ [x])
    /\ (startDay x <= endDay x -> Crowded lanes -> Crowded lanes').
Proof.
  intros Hx Hle Hok.
  assert (Hne : Forall (fun lane => lane <> []) lanes).
  { eapply Forall_impl; [|exact Hok]. now intros ln [H _]. }
  destruct (assignItemToLane_shape lanes x Hne)
    as [[pre [ln [post [-> [Hpre [Hacc ->]]]]]]|[Hall ->]].
  - apply Forall_app in Hok. destruct Hok as [Hokpre Hokpost].
    inversion Hokpost as [|? ? Hokln Hokpost']; subst.
    eexists. split; [reflexivity|]. split; [|split; [|split]].
    + apply Forall_app. split.
      * eapply Forall_impl; [|exact Hokpre]. apply LaneOk_tail.
      * constructor; [now apply LaneOk_push|].
        eapply Forall_impl; [|exact Hokpost']. apply LaneOk_tail.
    + rewrite !concat_app. simpl. rewrite <- !app_assoc.
      apply Permutation_app_head. apply Permutation_app_head.
      apply Permutation_app_comm.
    + left. unfold firstItems. rewrite !flat_map_app. cbn [flat_map].
      rewrite firstn1_snoc; [reflexivity | now destruct Hokln].
    + intros _ [t Ht]. exists t.
      apply Forall_app in Ht. destruct Ht as [Htpre Htpost].
      inversion Htpost; subst.
      apply Forall_app. split; [assumption|].
      constructor; [|assumption].
      apply Exists_app. now left.
  - eexists. split; [reflexivity|]. split; [|split; [|split]].
    + apply Forall_app. split.
      * eapply Forall_impl; [|exact Hok]. apply LaneOk_tail.
      * constructor; [now apply LaneOk_single | constructor].
    + rewrite concat_app. simpl. apply Permutation_refl.
    + right. unfold firstItems. rewrite flat_map_app. reflexivity.
    + intros Hwf _. exists (startDay x * MS_PER_DAY).
      apply Forall_app. split.
      * rewrite Forall_forall in Hok, Hall. apply Forall_forall.
        intros lane Hlane.
        destruct (Hall lane Hlane) as [l [Hl Hlt]].
        destruct (Hok lane Hlane) as [_ [Hv [_ Hstart]]].
        assert (Hin : In l lane) by now apply lastItem_In.
        rewrite Forall_forall in Hv, Hstart.
        rewrite (end_before_start_days l x (Hv l Hin) Hx) in Hlt.
        apply Z.ltb_ge in Hlt.
        specialize (Hstart l Hin). inversion Hstart as [|? ? Hlx _]; subst.
        apply Exists_exists. exists l. split; [assumption|].
        rewrite (covers_days _ l (Hv l Hin)).
        apply andb_true_iff. split; apply Z.leb_le; [exact Hlx | exact Hlt].
      * constructor; [|constructor]. apply Exists_cons_hd.
        rewrite (covers_days _ x Hx).
        apply andb_true_iff. split; apply Z.leb_le; lia.
Qed.

(** The loop of lines 27-29 on sorted items with valid dates. *)
Lemma foldM_assign_ok (todo : list Item) :
  forall lanes : list Lane,
  Forall (fun i => hasValidDates i = true) todo ->
  StronglySorted leStart todo ->
  Forall (LaneOk todo) lanes ->
  exists lanes',
    foldM assignItemToLane todo lanes = Ok lanes'
    /\ Forall (LaneOk []) lanes'
    /\ Permutation (concat lanes') (concat lanes ++ todo)
    /\ (exists sub, firstItems lanes' = firstItems lanes ++ sub
                    /\ Subseq sub todo)
    /\ (Forall (fun i => startDay i <= endDay i) todo ->
        Crowded lanes -> Crowded lanes').
Proof.
  induction todo as [|x todo IH]; intros lanes Hv Hs Hok.
  - exists lanes. split; [reflexivity|]. split; [assumption|].
    split; [rewrite app_nil_r; apply Permutation_refl|].
    split; [|auto].
    exists []. rewrite app_nil_r. split; [reflexivity | constructor].
  - inversion Hv as [|? ? Hx Hv']; subst.
    inversion Hs as [|? ? Hs' Hle]; subst.
    destruct (assignItemToLane_step lanes x todo Hx Hle Hok)
      as [l1 [H1 [Hok1 [Hp1 [Hf1 Hc1]]]]].
    destruct (IH l1 Hv' Hs' Hok1) as [lanes' [H' [Hok' [Hp' [Hf' Hc']]]]].
    exists lanes'. simpl. rewrite H1. simpl.
    split; [exact H'|]. split; [exact Hok'|]. split; [|split].
    + eapply Permutation_trans; [exact Hp'|].
      replace (concat lanes ++ x :: todo) with ((concat lanes ++ [x]) ++ todo)
        by (rewrite <- app_assoc; reflexivity).
      now apply Permutation_app_tail.
    + destruct Hf' as [sub [Hsub Hseq]].
      destruct Hf1 as [Hf1|Hf1]; rewrite Hf1 in Hsub.
      * exists sub. split; [assumption | now constructor].
      * exists (x :: sub). rewrite <- app_assoc in Hsub.
        split; [assumption | now constructor].
    + intros Hwf Hc. inversion Hwf; subst. auto.
Qed.

(** ** Lanes: counting the items at an instant *)

Lemma covers_true (t : Z) (i : Item) :
  covers t i = true ->
  hasValidDates i = true
  /\ startDay i * MS_PER_DAY <= t <= endDay i * MS_PER_DAY.
Proof.
  unfold covers, hasValidDates, startDay, endDay.
  destruct (start i) as [s|], (end_ i) as [e|]; simpl; try discriminate.
  intros H. apply andb_true_iff in H. destruct H as [H1 H2].
  apply Z.leb_le in H1, H2. auto.
Qed.

Lemma overlapAt_cons (t : Z) (a : Item) (l : list Item) :
  overlapAt t (a :: l)
  = ((if covers t a then 1 else 0) + overlapAt t l)%nat.
Proof. unfold overlapAt. simpl. destruct (covers t a); reflexivity. Qed.

Lemma overlapAt_app (t : Z) (l1 l2 : list Item) :
  overlapAt t (l1 ++ l2) = (overlapAt t l1 + overlapAt t l2)%nat.
Proof. unfold overlapAt. now rewrite filter_app, length_app. Qed.

Lemma overlapAt_perm (t : Z) (l1 l2 : list Item) :
  Permutation l1 l2 -> overlapAt t l1 = overlapAt t l2.
Proof.
  induction 1 as [|a l1 l2 _ IH|a b l|l1 l2 l3 _ IH1 _ IH2].
  - reflexivity.
  - rewrite !overlapAt_cons. now rewrite IH.
  - rewrite !overlapAt_cons. lia.
  - congruence.
Qed.

(** The items of a lane are pairwise apart: at most one covers [t]. *)
Lemma lane_overlap_le_1 (t : Z) (lane : Lane) :
  StronglySorted before lane -> (overlapAt t lane <= 1)%nat.
Proof.
  induction 1 as [|a l Hs IH Ha]; [unfold overlapAt; simpl; lia|].
  rewrite overlapAt_cons.
  destruct (covers t a) eqn:Hc; [|simpl; exact IH].
  assert (H0 : overlapAt t l = 0%nat).
  { clear IH Hs. induction Ha as [|b l Hb _ IHl]; [reflexivity|].
    rewrite overlapAt_cons, IHl.
    destruct (covers t b) eqn:Hcb; [|reflexivity].
    apply covers_true in Hc, Hcb. unfold before in Hb.
    pose proof MS_PER_DAY_pos. nia. }
  rewrite H0. simpl. lia.
Qed.

Lemma overlapAt_concat_le (t : Z) (lanes : list Lane) :
  Forall (StronglySorted before) lanes ->
  (overlapAt t (concat lanes) <= length lanes)%nat.
Proof.
  induction 1 as [|lane lanes Hl _ IH]; simpl.
  - unfold overlapAt. simpl. lia.
  - rewrite overlapAt_app. pose proof (lane_overlap_le_1 t lane Hl). lia.
Qed.

Lemma overlapAt_Exists (t : Z) (lane : Lane) :
  Exists (fun a => covers t a = true) lane -> (1 <= overlapAt t lane)%nat.
Proof.
  induction 1 as [a l Ha|a l _ IH]; rewrite overlapAt_cons.
  - rewrite Ha. lia.
  - lia.
Qed.

Lemma overlapAt_concat_ge (t : Z) (lanes : list Lane) :
  Forall (fun lane => Exists (fun a => covers t a = true) lane) lanes ->
  (length lanes <= overlapAt t (concat lanes))%nat.
Proof.
  induction 1 as [|lane lanes Hl _ IH]; simpl.
  - lia.
  - rewrite overlapAt_app. pose proof (overlapAt_Exists t lane Hl). lia.
Qed.

(** ** Lanes: cliques of the overlap relation *)

Lemma overlap_days (a b : Item) :
  hasValidDates a = true -> hasValidDates b = true ->
  overlap a b = true ->
  startDay b <= endDay a /\ startDay a <= endDay b.
Proof.
  intros Ha Hb. unfold overlap.
  rewrite (end_before_start_days a b Ha Hb), (end_before_start_days b a Hb Ha).
  intros H. apply andb_true_iff in H. destruct H as [H1 H2].
  apply negb_true_iff in H1, H2. apply Z.ltb_ge in H1, H2. auto.
Qed.

(** Intervals that meet pairwise have a common instant: the latest start. *)
Lemma clique_common_day (c : list Item) :
  c <> [] ->
  Forall (fun i => hasValidDates i = true) c ->
  Forall (fun i => startDay i <= endDay i) c ->
  Clique c ->
  exists m, In m c
            /\ Forall (fun a => startDay a <= startDay m <= endDay a) c.
Proof.
  induction c as [|a c IH]; [congruence|].
  intros _ Hv Hwf Hc.
  inversion Hv as [|? ? Hva Hvc]; subst.
  inversion Hwf as [|? ? Hwa Hwc]; subst.
  inversion Hc as [|? ? Hac Hcc]; subst.
  destruct c as [|b c'].
  - exists a. split; [now left|]. repeat constructor; lia.
  - destruct IH as [m [Hm Hall]]; [discriminate|assumption..|].
    assert (Hvm : hasValidDates m = true).
    { rewrite Forall_forall in Hvc. now apply Hvc. }
    assert (Ham : overlap a m = true).
    { rewrite Forall_forall in Hac. now apply Hac. }
    destruct (overlap_days a m Hva Hvm Ham) as [Hma Ham'].
    destruct (Z.le_ge_cases (startDay a) (startDay m)) as [Hle|Hge].
    + exists m. split; [now right|].
      constructor; [lia | assumption].
    + exists a. split; [now left|].
      constructor; [lia|].
      rewrite Forall_forall in Hall, Hac, Hvc. apply Forall_forall.
      intros x Hx.
      destruct (overlap_days a x Hva (Hvc x Hx) (Hac x Hx)) as [H1 H2].
      specialize (Hall x Hx). lia.
Qed.

Lemma Subseq_In {A : Type} (l1 l2 : list A) (x : A) :
  Subseq l1 l2 -> In x l1 -> In x l2.
Proof.
  induction 1 as [|y l1 l2 _ IH|y l1 l2 _ IH]; simpl; intuition.
Qed.

Lemma Subseq_Forall {A : Type} (P : A -> Prop) (l1 l2 : list A) :
  Subseq l1 l2 -> Forall P l2 -> Forall P l1.
Proof.
  intros Hs H. rewrite Forall_forall in *. intros x Hx.
  apply H. eapply Subseq_In; eassumption.
Qed.

Lemma Subseq_filter {A : Type} (f : A -> bool) (l : list A) :
  Subseq (filter f l) l.
Proof.
  induction l as [|x l IH]; simpl; [constructor|].
  destruct (f x); now constructor.
Qed.

Lemma Subseq_overlapAt (t : Z) (c l : list Item) :
  Subseq c l -> Forall (fun a => covers t a = true) c ->
  (length c <= overlapAt t l)%nat.
Proof.
  induction 1 as [|x c l _ IH|x c l _ IH]; intros Hc.
  - simpl. lia.
  - rewrite overlapAt_cons. specialize (IH Hc). lia.
  - inversion Hc as [|? ? Hx Hc']; subst.
    rewrite overlapAt_cons, Hx. specialize (IH Hc'). simpl. lia.
Qed.

(** The items that cover one instant overlap pairwise. *)
Lemma covering_Clique (t : Z) (l : list Item) : Clique (filter (covers t) l).
Proof.
  apply ForallPairs_ForallOrdPairs. intros a b Ha Hb.
  apply filter_In in Ha, Hb. destruct Ha as [_ Ha], Hb as [_ Hb].
  apply covers_true in Ha, Hb. destruct Ha as [Hva Ha], Hb as [Hvb Hb].
  unfold overlap.
  rewrite (end_before_start_days a b Hva Hvb), (end_before_start_days b a Hvb Hva).
  pose proof MS_PER_DAY_pos.
  apply andb_true_iff. split; apply negb_true_iff, Z.ltb_ge; nia.
Qed.

(** ** C10: a missing item array *)

(** C10.  When [items] is [null] or [undefined], [assignLanesToItems]
    returns the empty lane sequence and does not throw, exactly as it does
    for the empty array. *)
Theorem assignLanesToItems_null :
  assignLanesToItems None = Ok []
  /\ assignLanesToItems None = assignLanesToItems (Some []).
Proof. split; reflexivity. Qed.

(** ** C1: every item in one lane, as many lanes as the largest overlap *)

Lemma assignLanesToItems_valid (its : list Item) :
  Forall (fun i => hasValidDates i = true) its ->
  exists lanes,
    assignLanesToItems (Some its) = Ok lanes
    /\ Forall (LaneOk []) lanes
    /\ Permutation (concat lanes) its
    /\ Subseq (firstItems lanes) (sortByStart its)
    /\ (Forall (fun i => startDay i <= endDay i) its -> Crowded lanes).
Proof.
  intros Hv. destruct its as [|i l].
  - exists []. split; [reflexivity|]. split; [constructor|].
    split; [constructor|]. split; [constructor|].
    intros _. exists 0. constructor.
  - destruct (foldM_assign_ok (sortByStart (i :: l)) [])
      as [lanes [H [Hok [Hp [[sub [Hsub Hseq]] Hc]]]]].
    + eapply Permutation_Forall; [|exact Hv].
      apply Permutation_sym, sortByStart_perm.
    + now apply sortByStart_sorted.
    + constructor.
    + exists lanes. split; [exact H|]. split; [exact Hok|].
      split; [|split].
      * eapply Permutation_trans; [exact Hp|]. apply sortByStart_perm.
      * simpl in Hsub. rewrite Hsub. exact Hseq.
      * intros Hwf. apply Hc.
        -- eapply Permutation_Forall; [|exact Hwf].
           apply Permutation_sym, sortByStart_perm.
        -- exists 0. constructor.
Qed.

(** An item whose end is before its start, next to [itemA]: both dates of
    both items are valid, the items get a lane each, yet no instant lies
    in both intervals and the two items do not overlap. *)
Lemma inverted_item_takes_a_lane :
  Forall (fun i => hasValidDates i = true) [itemA; itemInverted]
  /\ assignLanesToItems (Some [itemA; itemInverted])
     = Ok [[itemA]; [itemInverted]]
  /\ (forall t, (overlapAt t [itemA; itemInverted] <= 1)%nat)
  /\ (forall c, Subseq c [itemA; itemInverted] -> Clique c ->
                (length c <= 1)%nat).
Proof.
  split; [repeat constructor|]. split; [vm_compute; reflexivity|]. split.
  - intros t. rewrite !overlapAt_cons.
    assert (Hx : covers t itemInverted = false).
    { destruct (covers t itemInverted) eqn:Hc; [|reflexivity].
      apply covers_true in Hc. destruct Hc as [_ [H1 H2]].
      unfold startDay, endDay, itemInverted, day_2024_01_01, MS_PER_DAY in *.
      simpl in *. lia. }
    rewrite Hx. unfold overlapAt. simpl. destruct (covers t itemA); simpl; lia.
  - intros c Hs Hc.
    repeat match goal with
           | H : Subseq _ (_ :: _) |- _ => inversion H; clear H; subst
           | H : Subseq _ [] |- _ => inversion H; clear H; subst
           end; simpl; try lia.
    inversion Hc as [|? ? Hax _]; subst.
    inversion Hax as [|? ? Hov _]; subst.
    vm_compute in Hov. discriminate.
Qed.

(** C1 (amended).  For every non-empty item sequence with valid dates in
    which every item has start <= end, [assignLanesToItems] returns lanes
    that together hold every input item exactly once, and the number of
    lanes is the largest number of items whose intervals contain a common
    instant; it is also the size of the largest set of pairwise overlapping
    items (two items overlap when neither ends before the other starts). *)
Theorem assignLanesToItems_lane_count (its : list Item) :
  its <> [] ->
  Forall (fun i => hasValidDates i = true) its ->
  Forall (fun i => startDay i <= endDay i) its ->
  exists lanes,
    assignLanesToItems (Some its) = Ok lanes
    /\ Permutation (concat lanes) its
    /\ (forall t, (overlapAt t its <= length lanes)%nat)
    /\ (exists t, overlapAt t its = length lanes)
    /\ (forall c, Subseq c its -> Clique c -> (length c <= length lanes)%nat)
    /\ (exists c, Subseq c its /\ Clique c /\ length c = length lanes).
Proof.
  intros _ Hv Hwf.
  destruct (assignLanesToItems_valid its Hv)
    as [lanes [H [Hok [Hp [_ Hc]]]]].
  assert (Hs : Forall (StronglySorted before) lanes).
  { eapply Forall_impl; [|exact Hok]. now intros ln [_ [_ [Hs _]]]. }
  assert (Hup : forall t, (overlapAt t its <= length lanes)%nat).
  { intros t. rewrite <- (overlapAt_perm t _ _ Hp).
    now apply overlapAt_concat_le. }
  assert (Hex : exists t, overlapAt t its = length lanes).
  { destruct (Hc Hwf) as [t Ht]. exists t.
    apply Nat.le_antisymm; [apply Hup|].
    rewrite <- (overlapAt_perm t _ _ Hp). now apply overlapAt_concat_ge. }
  exists lanes. split; [exact H|]. split; [exact Hp|].
  split; [exact Hup|]. split; [exact Hex|]. split.
  - intros c Hsub Hcl.
    destruct c as [|a c']; [simpl; lia|].
    destruct (clique_common_day (a :: c')) as [m [Hm Hall]].
    + discriminate.
    + eapply Subseq_Forall; eassumption.
    + eapply Subseq_Forall; eassumption.
    + exact Hcl.
    + eapply Nat.le_trans; [|apply (Hup (startDay m * MS_PER_DAY))].
      apply Subseq_overlapAt; [exact Hsub|].
      pose proof (Subseq_Forall _ _ _ Hsub Hv) as Hvc.
      rewrite Forall_forall in Hall, Hvc. apply Forall_forall.
      intros x Hx. rewrite (covers_days _ x (Hvc x Hx)).
      specialize (Hall x Hx).
      apply andb_true_iff. split; apply Z.leb_le; lia.
  - destruct Hex as [t Ht]. exists (filter (covers t) its).
    split; [apply Subseq_filter|]. split; [apply covering_Clique|].
    exact Ht.
Qed.

Lemma assignLanesToItems_lane_count_witness :
  exists lanes,
    assignLanesToItems (Some [itemC; itemA; itemB]) = Ok lanes
    /\ Permutation (concat lanes) [itemC; itemA; itemB]
    /\ (forall t, (overlapAt t [itemC; itemA; itemB] <= length lanes)%nat)
    /\ (exists t, overlapAt t [itemC; itemA; itemB] = length lanes)
    /\ (forall c, Subseq c [itemC; itemA; itemB] -> Clique c ->
                  (length c <= length lanes)%nat)
    /\ (exists c, Subseq c [itemC; itemA; itemB] /\ Clique c
                  /\ length c = length lanes).
Proof.
  apply (assignLanesToItems_lane_count [itemC; itemA; itemB]).
  - discriminate.
  - repeat constructor.
  - repeat constructor; vm_compute; discriminate.
Defined.

(** ** C2: the order inside a lane and the order of the lanes *)

Lemma StronglySorted_laneOrder (lane : Lane) :
  Forall (fun i => hasValidDates i = true) lane ->
  Forall (fun i => startDay i <= endDay i) lane ->
  StronglySorted before lane ->
  StronglySorted laneOrder lane.
Proof.
  intros Hv Hwf Hs. induction Hs as [|a l Hs IH Ha].
  - constructor.
  - inversion Hv as [|? ? Hva Hvl]; subst.
    inversion Hwf as [|? ? Hwa Hwl]; subst.
    constructor; [now apply IH|].
    rewrite Forall_forall in Ha, Hvl. apply Forall_forall.
    intros b Hb. specialize (Ha b Hb). unfold before in Ha.
    unfold laneOrder.
    rewrite (start_lt_days a b Hva (Hvl b Hb)).
    rewrite (end_before_start_days a b Hva (Hvl b Hb)).
    split; apply Z.ltb_lt; lia.
Qed.

(** C2.  For every item sequence with valid dates in which every item
    has start <= end, in every lane that [assignLanesToItems] returns each
    item starts strictly before, and ends strictly before the start of,
    every later item of the lane, so in particular the next one; and the
    lanes are in the order of their creation: their first items, lane by
    lane, follow the order in which the sorted items were placed. *)
Theorem assignLanesToItems_lane_order (its : list Item) :
  Forall (fun i => hasValidDates i = true) its ->
  Forall (fun i => startDay i <= endDay i) its ->
  exists lanes,
    assignLanesToItems (Some its) = Ok lanes
    /\ Forall (StronglySorted laneOrder) lanes
    /\ Forall (Sorted laneOrder) lanes
    /\ Forall (fun lane => lane <> []) lanes
    /\ Subseq (firstItems lanes) (sortByStart its).
Proof.
  intros Hv Hwf.
  destruct (assignLanesToItems_valid its Hv)
    as [lanes [H [Hok [Hp [Hseq _]]]]].
  assert (Hwl : Forall (Forall (fun i => startDay i <= endDay i)) lanes).
  { apply Forall_concat. eapply Permutation_Forall; [|exact Hwf].
    now apply Permutation_sym. }
  assert (Hss : Forall (StronglySorted laneOrder) lanes).
  { rewrite Forall_forall in Hok, Hwl. apply Forall_forall.
    intros lane Hl. destruct (Hok lane Hl) as [_ [Hvl [Hs _]]].
    apply StronglySorted_laneOrder; auto. }
  exists lanes. split; [exact H|]. split; [exact Hss|]. split; [|split].
  - eapply Forall_impl; [|exact Hss]. intros lane. apply StronglySorted_Sorted.
  - eapply Forall_impl; [|exact Hok]. now intros lane [Hne _].
  - exact Hseq.
Qed.

Lemma assignLanesToItems_lane_order_witness :
  exists lanes,
    assignLanesToItems (Some [itemC; itemA; itemB]) = Ok lanes
    /\ Forall (StronglySorted laneOrder) lanes
    /\ Forall (Sorted laneOrder) lanes
    /\ Forall (fun lane => lane <> []) lanes
    /\ Subseq (firstItems lanes) (sortByStart [itemC; itemA; itemB]).
Proof.
  apply (assignLanesToItems_lane_order [itemC; itemA; itemB]).
  - repeat constructor.
  - repeat constructor; vm_compute; discriminate.
Defined.

(** ** C5: the visible range *)

Lemma minTime_valid (l : list Item) :
  l <> [] ->
  Forall (fun i => hasValidDates i = true) l ->
  exists lo,
    minTime (map (fun item => newDate (start item)) l) = Some (lo * MS_PER_DAY)
    /\ isMinOf lo (map startDay l).
Proof.
  induction l as [|i l IH]; [congruence|].
  intros _ Hv. inversion Hv as [|? ? Hi Hl]; subst.
  destruct l as [|j l'].
  - exists (startDay i). simpl. rewrite (valid_start i Hi). simpl.
    split; [reflexivity|]. split; [now left|]. repeat constructor. lia.
  - destruct IH as [lo [Hm [Hin Hall]]]; [discriminate | assumption |].
    exists (Z.min (startDay i) lo).
    change (minTime (map (fun item => newDate (start item)) (i :: j :: l')))
      with (match newDate (start i),
                  minTime (map (fun item => newDate (start item)) (j :: l'))
            with
            | Some a, Some b => Some (Z.min a b)
            | _, _ => None
            end).
    rewrite Hm, (valid_start i Hi). simpl newDate. cbv iota.
    split.
    + f_equal. rewrite Z.mul_min_distr_nonneg_r; [reflexivity|].
      pose proof MS_PER_DAY_pos; lia.
    + split.
      * change (map startDay (i :: j :: l'))
          with (startDay i :: map startDay (j :: l')).
        destruct (Z.min_spec (startDay i) lo) as [[_ ->]|[_ ->]];
          [now left | now right].
      * change (map startDay (i :: j :: l'))
          with (startDay i :: map startDay (j :: l')).
        constructor; [lia|].
        eapply Forall_impl; [|exact Hall]. simpl. intros; lia.
Qed.

Lemma maxTime_valid (l : list Item) :
  l <> [] ->
  Forall (fun i => hasValidDates i = true) l ->
  exists hi,
    maxTime (map (fun item => newDate (end_ item)) l) = Some (hi * MS_PER_DAY)
    /\ isMaxOf hi (map endDay l).
Proof.
  induction l as [|i l IH]; [congruence|].
  intros _ Hv. inversion Hv as [|? ? Hi Hl]; subst.
  destruct l as [|j l'].
  - exists (endDay i). simpl. rewrite (valid_end i Hi). simpl.
    split; [reflexivity|]. split; [now left|]. repeat constructor. lia.
  - destruct IH as [hi [Hm [Hin Hall]]]; [discriminate | assumption |].
    exists (Z.max (endDay i) hi).
    change (maxTime (map (fun item => newDate (end_ item)) (i :: j :: l')))
      with (match newDate (end_ i),
                  maxTime (map (fun item => newDate (end_ item)) (j :: l'))
            with
            | Some a, Some b => Some (Z.max a b)
            | _, _ => None
            end).
    rewrite Hm, (valid_end i Hi). simpl newDate. cbv iota.
    split.
    + f_equal. rewrite Z.mul_max_distr_nonneg_r; [reflexivity|].
      pose proof MS_PER_DAY_pos; lia.
    + split.
      * change (map endDay (i :: j :: l'))
          with (endDay i :: map endDay (j :: l')).
        destruct (Z.max_spec (endDay i) hi) as [[_ ->]|[_ ->]];
          [now right | now left].
      * change (map endDay (i :: j :: l'))
          with (endDay i :: map endDay (j :: l')).
        constructor; [lia|].
        eapply Forall_impl; [|exact Hall]. simpl. intros; lia.
Qed.

(** The range of a non-empty sequence of items with valid dates, in a
    zone whose offset never changes. *)
Lemma calculateDateRange_padded (tz : TimeZone) (now : Z) (its : list Item) :
  fixedOffset tz ->
  its <> [] ->
  Forall (fun i => hasValidDates i = true) its ->
  exists lo hi,
    isMinOf lo (map startDay its)
    /\ isMaxOf hi (map endDay its)
    /\ calculateDateRange tz now (Some its)
       = {| minDate := newDate (YMD (lo - 7));
            maxDate := newDate (YMD (hi + 7)) |}.
Proof.
  intros Hfix Hne Hv.
  destruct (minTime_valid its Hne Hv) as [lo [Hlo Hmin]].
  destruct (maxTime_valid its Hne Hv) as [hi [Hhi Hmax]].
  exists lo, hi. split; [assumption|]. split; [assumption|].
  destruct its as [|i l]; [congruence|].
  unfold calculateDateRange, paddedRange, try_catch.
  rewrite Hlo, Hhi, !(addDays_fixed tz _ _ Hfix).
  simpl. unfold MS_PER_DAY. f_equal; f_equal; lia.
Qed.




(** ** C6: an unparseable date in the visible range *)

Lemma minTime_None (ts : list (option Z)) : In None ts -> minTime ts = None.
Proof.
  induction ts as [|t ts IH]; [contradiction|].
  intros [->|Hin].
  - destruct ts; reflexivity.
  - specialize (IH Hin). destruct ts as [|u ts']; [contradiction|].
    change (minTime (t :: u :: ts'))
      with (match t, minTime (u :: ts') with
            | Some a, Some b => Some (Z.min a b)
            | _, _ => None
            end).
    rewrite IH. destruct t; reflexivity.
Qed.

Lemma maxTime_None (ts : list (option Z)) : In None ts -> maxTime ts = None.
Proof.
  induction ts as [|t ts IH]; [contradiction|].
  intros [->|Hin].
  - destruct ts; reflexivity.
  - specialize (IH Hin). destruct ts as [|u ts']; [contradiction|].
    change (maxTime (t :: u :: ts'))
      with (match t, maxTime (u :: ts') with
            | Some a, Some b => Some (Z.max a b)
            | _, _ => None
            end).
    rewrite IH. destruct t; reflexivity.
Qed.

(** The [catch] of [calculateDateRange] is never entered because of an
    unparseable date: the Invalid Date ends up in the returned range. *)
Lemma calculateDateRange_keeps_invalid (tz : TimeZone) (now : Z)
  (its : list Item) (i : Item) :
  In i its ->
  (start i = Unparseable ->
     minDate (calculateDateRange tz now (Some its)) = None)
  /\ (end_ i = Unparseable ->
     maxDate (calculateDateRange tz now (Some its)) = None).
Proof.
  intros Hin.
  destruct its as [|j l]; [contradiction|].
  unfold calculateDateRange, paddedRange, try_catch.
  cbv beta iota zeta. cbn [minDate maxDate].
  split; intros Hu.
  - rewrite minTime_None; [reflexivity|].
    apply in_map_iff. exists i. rewrite Hu. auto.
  - rewrite maxTime_None; [reflexivity|].
    apply in_map_iff. exists i. rewrite Hu. auto.
Qed.

(** C6 (the code departs from it).  For the one-item sequence whose item
    has an unparseable start, [calculateDateRange] does not throw, but it
    does not return the default window either, in any time zone: [minDate]
    is an Invalid Date, and [maxDate] is 7 days after the item's end (the
    value is given for UTC and for New York). *)
Theorem calculateDateRange_unparseable_start (now : Z) :
  calculateDateRange utcZone now (Some [itemBadStart])
  = {| minDate := None; maxDate := newDate (YMD (day_2024_01_01 + 11)) |}
  /\ calculateDateRange newYork2024 now (Some [itemBadStart])
     = {| minDate := None; maxDate := newDate (YMD (day_2024_01_01 + 11)) |}
  /\ (forall tz,
        minDate (calculateDateRange tz now (Some [itemBadStart])) = None
        /\ calculateDateRange tz now (Some [itemBadStart]) <> defaultRange tz now).
Proof.
  split; [reflexivity|]. split; [reflexivity|].
  intros tz. split; [reflexivity | discriminate].
Qed.

(** ** C8: item geometry *)

Lemma floorDays_days (a b : Z) :
  floorDays (date_sub (newDate (YMD a)) (newDate (YMD b))) = Some (a - b).
Proof.
  simpl. f_equal. rewrite <- Z.mul_sub_distr_r. apply days_div.
Qed.

Lemma ceilDays_days (a b : Z) :
  ceilDays (date_sub (newDate (YMD a)) (newDate (YMD b))) = Some (a - b).
Proof.
  simpl. f_equal. rewrite <- Z.mul_sub_distr_r, <- Z.mul_opp_l, days_div. lia.
Qed.

(** The style of an item with valid dates, laid out from the day [m]. *)
Lemma getItemStyle_days (item : Item) (m s e : Z) (zoom : Q) :
  start item = YMD s ->
  end_ item = YMD e ->
  getItemStyle (newDate (YMD m)) zoom item
  = {| left := Some (inject_Z (s - m) * 24 * zoom)%Q;
       width := Some (Qmax (inject_Z (e - s) * 24 * zoom) 80);
       backgroundColor := colorOrDefault (color item) |}.
Proof.
  intros Hs He. unfold getItemStyle, itemStyle, try_catch.
  cbv beta iota zeta.
  rewrite Hs, He, floorDays_days, ceilDays_days.
  replace (e - m - (s - m)) with (e - s) by lia. reflexivity.
Qed.




(** In the component the origin is the [minDate] of [calculateDateRange]:
    with valid dates, in a zone whose offset never changes, it is the day
    7 days before the least start. *)
Lemma getItemStyle_in_range (tz : TimeZone) (now : Z) (its : list Item)
  (item : Item) (zoom : Q) :
  fixedOffset tz ->
  its <> [] ->
  Forall (fun i => hasValidDates i = true) its ->
  hasValidDates item = true ->
  exists lo,
    isMinOf lo (map startDay its)
    /\ getItemStyle (minDate (calculateDateRange tz now (Some its))) zoom item
       = {| left := Some (inject_Z (startDay item - (lo - 7)) * 24 * zoom)%Q;
            width := Some (Qmax (inject_Z (endDay item - startDay item)
                                 * 24 * zoom) 80);
            backgroundColor := colorOrDefault (color item) |}.
Proof.
  intros Hfix Hne Hv Hi.
  destruct (calculateDateRange_padded tz now its Hfix Hne Hv)
    as [lo [hi [Hlo [_ ->]]]].
  exists lo. split; [assumption|]. cbn [minDate].
  apply getItemStyle_days; [now apply valid_start | now apply valid_end].
Qed.

(** [handleZoom] keeps the zoom level between 0.5 and 5. *)
Lemma handleZoom_range (zoomIn : bool) (prevZoom : Q) :
  (1 # 2 <= handleZoom zoomIn prevZoom)%Q /\ (handleZoom zoomIn prevZoom <= 5)%Q.
Proof.
  unfold handleZoom. split.
  - apply Q.le_max_l.
  - apply Q.max_lub; [discriminate | apply Q.le_min_l].
Qed.

(** ** C3: from pixels back to days *)

Lemma Qfloor_half (k : Z) : Qfloor (inject_Z k + (1 # 2)) = k.
Proof.
  unfold Qplus, inject_Z, Qfloor. simpl.
  symmetry. apply Z.div_unique with (r := 1); lia.
Qed.

Lemma daysDelta_exact (k : Z) (zoom : Q) :
  ~ (zoom == 0)%Q ->
  daysDelta (inject_Z k * 24 * zoom) zoom = k.
Proof.
  intros Hz. unfold daysDelta.
  assert (Heq : (inject_Z k * 24 * zoom / (24 * zoom) + (1 # 2)
                 == inject_Z k + (1 # 2))%Q).
  { field. exact Hz. }
  rewrite Heq. apply Qfloor_half.
Qed.

(** C3.  At every zoom level in [0.5, 5], for two items starting on the
    days [d1] and [d2] and laid out from the same day-granularity origin,
    the day delta that [handleDrag] computes from the difference of their
    [left] positions is exactly [d2 - d1]. *)
Theorem pixel_round_trip (zoom : Q) (m d1 d2 : Z) (i1 i2 : Item) :
  (1 # 2 <= zoom)%Q -> (zoom <= 5)%Q ->
  start i1 = YMD d1 -> start i2 = YMD d2 ->
  exists x1 x2,
    left (getItemStyle (newDate (YMD m)) zoom i1) = Some x1
    /\ left (getItemStyle (newDate (YMD m)) zoom i2) = Some x2
    /\ x1 = (inject_Z (d1 - m) * 24 * zoom)%Q
    /\ x2 = (inject_Z (d2 - m) * 24 * zoom)%Q
    /\ daysDelta (x2 - x1) zoom = d2 - d1.
Proof.
  intros Hlo _ H1 H2.
  exists (inject_Z (d1 - m) * 24 * zoom)%Q, (inject_Z (d2 - m) * 24 * zoom)%Q.
  assert (Hl : forall i d, start i = YMD d ->
             left (getItemStyle (newDate (YMD m)) zoom i)
             = Some (inject_Z (d - m) * 24 * zoom)%Q).
  { intros i d Hi. unfold getItemStyle, itemStyle, try_catch.
    cbv beta iota zeta. cbn [left]. rewrite Hi, floorDays_days. reflexivity. }
  split; [now apply Hl|]. split; [now apply Hl|].
  split; [reflexivity|]. split; [reflexivity|].
  assert (Hz : ~ (zoom == 0)%Q).
  { intros Hz. apply (Qlt_irrefl 0). rewrite <- Hz at 2.
    eapply Qlt_le_trans; [|exact Hlo]. reflexivity. }
  rewrite <- (daysDelta_exact (d2 - d1) zoom Hz).
  unfold daysDelta. apply Qfloor_comp.
  apply Qplus_comp; [|reflexivity].
  apply Qdiv_comp; [|reflexivity].
  assert (Hd : (inject_Z (d2 - d1) == inject_Z (d2 - m) - inject_Z (d1 - m))%Q).
  { unfold Qeq, Qminus, Qplus, Qopp, inject_Z. simpl. lia. }
  rewrite Hd. ring.
Qed.

Lemma pixel_round_trip_witness :
  exists x1 x2,
    left (getItemStyle (newDate (YMD (day_2024_01_01 - 7))) (6 # 5) itemA)
    = Some x1
    /\ left (getItemStyle (newDate (YMD (day_2024_01_01 - 7))) (6 # 5) itemC)
       = Some x2
    /\ x1 = (inject_Z (day_2024_01_01 - (day_2024_01_01 - 7)) * 24 * (6 # 5))%Q
    /\ x2 = (inject_Z (day_2024_01_01 + 5 - (day_2024_01_01 - 7)) * 24 * (6 # 5))%Q
    /\ daysDelta (x2 - x1) (6 # 5) = day_2024_01_01 + 5 - day_2024_01_01.
Proof.
  apply (pixel_round_trip (6 # 5) (day_2024_01_01 - 7)
           day_2024_01_01 (day_2024_01_01 + 5) itemA itemC).
  - vm_compute. discriminate.
  - vm_compute. discriminate.
  - reflexivity.
  - reflexivity.
Defined.

(** ** C4: the handles cannot cross *)

Lemma startsBeforeEnd_days (i : Item) :
  startsBeforeEnd i = true <->
  exists s e, start i = YMD s /\ end_ i = YMD e /\ s < e.
Proof.
  unfold startsBeforeEnd. split.
  - destruct (start i) as [s|], (end_ i) as [e|]; simpl; try discriminate.
    intros H. apply Z.ltb_lt in H. apply (proj1 (days_lt s e)) in H.
    exists s, e. auto.
  - intros [s [e [-> [-> H]]]]. simpl. apply Z.ltb_lt. now apply (proj2 (days_lt s e)).
Qed.

Lemma startsBeforeEnd_valid (i : Item) :
  startsBeforeEnd i = true -> hasValidDates i = true.
Proof.
  intros H. apply startsBeforeEnd_days in H.
  destruct H as [s [e [Hs [He _]]]]. unfold hasValidDates.
  now rewrite Hs, He.
Qed.

(** The drag of the start handle, in days, where the offset of the zone
    never changes. *)
Lemma dragItem_start_days (tz : TimeZone) (item : Item) (s e delta : Z) :
  fixedOffset tz ->
  start item = YMD s -> end_ item = YMD e ->
  dragItem tz (Some DragStart) delta item
  = Ok (if s + delta <? e then setStart item (YMD (s + delta)) else item).
Proof.
  intros Hfix Hs He. unfold dragItem. cbv zeta.
  rewrite Hs, He, !(addDays_fixed tz _ _ Hfix). simpl.
  rewrite days_add_div, <- Z.mul_add_distr_r.
  destruct (Z.ltb_spec ((s + delta) * MS_PER_DAY) (e * MS_PER_DAY)) as [H|H];
    [apply (proj1 (days_lt _ _)) in H | apply (proj1 (days_le _ _)) in H].
  - apply Z.ltb_lt in H. now rewrite H.
  - apply Z.ltb_ge in H. now rewrite H.
Qed.

(** The drag of the end handle, in days, where the offset of the zone
    never changes. *)
Lemma dragItem_end_days (tz : TimeZone) (item : Item) (s e delta : Z) :
  fixedOffset tz ->
  start item = YMD s -> end_ item = YMD e ->
  dragItem tz (Some DragEnd) delta item
  = Ok (if s <? e + delta then setEnd item (YMD (e + delta)) else item).
Proof.
  intros Hfix Hs He. unfold dragItem, date_gt. cbv zeta.
  rewrite Hs, He, !(addDays_fixed tz _ _ Hfix). simpl.
  rewrite days_add_div, <- Z.mul_add_distr_r.
  destruct (Z.ltb_spec (s * MS_PER_DAY) ((e + delta) * MS_PER_DAY)) as [H|H];
    [apply (proj1 (days_lt _ _)) in H | apply (proj1 (days_le _ _)) in H].
  - apply Z.ltb_lt in H. now rewrite H.
  - apply Z.ltb_ge in H. now rewrite H.
Qed.

(** One step on a handle keeps [start < end]. *)
Lemma dragItem_handle_keeps_order (tz : TimeZone) (mode : DragType) (delta : Z)
  (item : Item) :
  fixedOffset tz ->
  mode <> DragMove ->
  startsBeforeEnd item = true ->
  exists item', dragItem tz (Some mode) delta item = Ok item'
                /\ startsBeforeEnd item' = true.
Proof.
  intros Hfix Hmode Hord.
  destruct (proj1 (startsBeforeEnd_days item) Hord) as [s [e [Hs [He Hlt]]]].
  destruct mode; [| |congruence].
  - rewrite (dragItem_start_days tz item s e delta Hfix Hs He).
    destruct (Z.ltb_spec (s + delta) e) as [H|H]; eexists; split;
      try reflexivity; [|assumption].
    apply startsBeforeEnd_days. exists (s + delta), e. simpl. auto.
  - rewrite (dragItem_end_days tz item s e delta Hfix Hs He).
    destruct (Z.ltb_spec s (e + delta)) as [H|H]; eexists; split;
      try reflexivity; [|assumption].
    apply startsBeforeEnd_days. exists s, (e + delta). simpl. auto.
Qed.

(** C4 (the code departs from it).  In New York, the item from 2024-11-01
    to 2024-11-10 has start < end, and a step of -8 days on its end handle
    is taken: [setDate] goes 8 local days back from the end, across the
    clock change of 2024-11-03, to 2024-11-01T23:00Z, which is after the
    start (2024-11-01T00:00Z); the end that is written is the UTC day
    2024-11-01, the start: start < end no longer holds. *)
Theorem end_handle_reaches_start_new_york :
  startsBeforeEnd itemNov1 = true
  /\ addDays newYork2024 (newDate (end_ itemNov1)) (-8)
     = Some (20028 * MS_PER_DAY + 23 * MS_PER_HOUR)
  /\ dragItem newYork2024 (Some DragEnd) (-8) itemNov1
     = Ok (setEnd itemNov1 (start itemNov1))
  /\ startsBeforeEnd (setEnd itemNov1 (start itemNov1)) = false.
Proof.
  repeat split; vm_compute; reflexivity.
Qed.

(** X24.  In a zone whose offset never changes, for an item with
    [start < end]: a step on the start handle whose candidate start is on
    or after the end returns the item unchanged and does not throw; a step
    on the end handle whose candidate end is on or before the start does
    the same; and after any sequence of steps on the two handles the steps
    have all returned and [start < end] holds. *)
Theorem drag_handles_keep_start_before_end (tz : TimeZone) (item : Item) :
  fixedOffset tz ->
  startsBeforeEnd item = true ->
  (forall delta, endDay item <= startDay item + delta ->
     dragItem tz (Some DragStart) delta item = Ok item)
  /\ (forall delta, endDay item + delta <= startDay item ->
     dragItem tz (Some DragEnd) delta item = Ok item)
  /\ (forall steps, Forall (fun step => fst step <> DragMove) steps ->
     exists item', dragSteps tz steps item = Ok item'
                   /\ startsBeforeEnd item' = true).
Proof.
  intros Hfix Hord. split; [|split].
  - intros delta Hge.
    pose proof (startsBeforeEnd_valid item Hord) as Hv.
    rewrite (dragItem_start_days tz item _ _ delta Hfix
               (valid_start item Hv) (valid_end item Hv)).
    apply Z.ltb_ge in Hge. now rewrite Hge.
  - intros delta Hle.
    pose proof (startsBeforeEnd_valid item Hord) as Hv.
    rewrite (dragItem_end_days tz item _ _ delta Hfix
               (valid_start item Hv) (valid_end item Hv)).
    apply Z.ltb_ge in Hle. now rewrite Hle.
  - intros steps Hsteps. revert item Hord.
    induction Hsteps as [|step steps Hstep _ IH]; intros item Hord.
    + exists item. split; [reflexivity | assumption].
    + destruct (dragItem_handle_keeps_order tz (fst step) (snd step) item
                  Hfix Hstep Hord) as [item1 [H1 Hord1]].
      destruct (IH item1 Hord1) as [item' [H' Hord']].
      exists item'. split; [|assumption].
      unfold dragSteps in *. cbn [foldM]. cbv beta.
      rewrite H1. exact H'.
Qed.

Lemma drag_handles_keep_start_before_end_witness :
  dragItem (fixedZone (9 * MS_PER_HOUR)) (Some DragStart) 4 itemA = Ok itemA
  /\ dragItem (fixedZone (9 * MS_PER_HOUR)) (Some DragEnd) (-6) itemA = Ok itemA
  /\ exists item',
       dragSteps (fixedZone (9 * MS_PER_HOUR))
         [(DragStart, 2); (DragEnd, -1); (DragStart, 5); (DragEnd, 3)]
         itemA = Ok item'
       /\ startsBeforeEnd item' = true.
Proof.
  destruct (drag_handles_keep_start_before_end (fixedZone (9 * MS_PER_HOUR))
              itemA (fixedZone_fixed _) eq_refl)
    as [Hs [He Hseq]].
  split; [|split].
  - apply Hs. vm_compute. discriminate.
  - apply He. vm_compute. discriminate.
  - apply Hseq. repeat constructor; discriminate.
Defined.

(** The same on the component state: where the offset of the zone never
    changes, pointer moves of a drag on a handle keep [start < end] on
    every item. *)
Lemma handleDrag_keeps_order (tz : TimeZone) (st : State) (clientX : Q) :
  fixedOffset tz ->
  dragType st <> Some DragMove ->
  Forall (fun i => startsBeforeEnd i = true) (items st) ->
  exists st', handleDrag tz st clientX = Ok st'
              /\ dragType st' = dragType st
              /\ Forall (fun i => startsBeforeEnd i = true) (items st').
Proof.
  intros Hfix Hmode Hord. unfold handleDrag.
  destruct (draggingItem st) as [target|]; [|eauto].
  destruct (_ =? 0); [eauto|].
  set (delta := daysDelta _ _).
  assert (Hmap : forall l, Forall (fun i => startsBeforeEnd i = true) l ->
            exists l', mapM (updateItem tz target (dragType st) delta) l = Ok l'
                       /\ Forall (fun i => startsBeforeEnd i = true) l').
  { induction 1 as [|i l Hi _ [l' [Hl' Hf']]]; simpl; [eauto|].
    assert (Hi' : exists i', updateItem tz target (dragType st) delta i = Ok i'
                             /\ startsBeforeEnd i' = true).
    { unfold updateItem. destruct (ItemId_eq_dec _ _); [|eauto].
      destruct (dragType st) as [mode|]; [|simpl; eauto].
      apply dragItem_handle_keeps_order; congruence. }
    destruct Hi' as [i' [-> Hi']]. rewrite Hl'. simpl. eauto. }
  destruct (Hmap (items st) Hord) as [l' [-> Hl']]. simpl. eauto.
Qed.

(** ** C9: the reference position of a drag *)

(** A move of 5 pixels at zoom 1 is less than half a day: the handler
    returns at line 175 and [dragStartX] keeps its value 0. *)
Lemma handleDrag_small_move_keeps_dragStartX :
  daysDelta (5 - dragStartX dragStateA) (zoomLevel dragStateA) = 0
  /\ (forall tz, handleDrag tz dragStateA 5 = Ok dragStateA)
  /\ ~ (dragStartX dragStateA == 5)%Q.
Proof.
  split; [reflexivity|]. split; [reflexivity|]. discriminate.
Qed.

Lemma mapM_Ok {A B : Type} (f : A -> Result B) (l : list A) :
  Forall (fun x => exists y, f x = Ok y) l -> exists l', mapM f l = Ok l'.
Proof.
  induction 1 as [|x l [y Hy] _ [l' Hl']]; simpl.
  - eauto.
  - rewrite Hy, Hl'. simpl. eauto.
Qed.

(** On items with valid dates no mode of the drag step throws. *)
Lemma dragItem_valid_Ok (tz : TimeZone) (mode : option DragType) (delta : Z)
  (item : Item) :
  hasValidDates item = true ->
  exists item', dragItem tz mode delta item = Ok item'.
Proof.
  intros Hv. unfold dragItem.
  rewrite (valid_start item Hv), (valid_end item Hv). simpl.
  destruct mode as [[| |]|]; simpl; eauto.
  - destruct (_ <? _); simpl; eauto.
  - unfold date_gt. simpl. destruct (_ <? _); simpl; eauto.
Qed.

(** C9 (amended).  During a drag, in any time zone, a pointer move whose
    day delta is zero leaves the whole state, [dragStartX] included, as it
    was; a move whose day delta is not zero sets [dragStartX] to the
    pointer X, and with valid item dates that step does return a state. *)
Theorem handleDrag_dragStartX (tz : TimeZone) (st : State) (clientX : Q)
  (target : Item) :
  draggingItem st = Some target ->
  (daysDelta (clientX - dragStartX st) (zoomLevel st) = 0 ->
     handleDrag tz st clientX = Ok st)
  /\ (daysDelta (clientX - dragStartX st) (zoomLevel st) <> 0 ->
      (forall st', handleDrag tz st clientX = Ok st' -> dragStartX st' = clientX)
      /\ (Forall (fun i => hasValidDates i = true) (items st) ->
          exists st', handleDrag tz st clientX = Ok st'
                      /\ dragStartX st' = clientX)).
Proof.
  intros Hd. unfold handleDrag. rewrite Hd. split.
  - intros ->. reflexivity.
  - intros Hdelta. apply Z.eqb_neq in Hdelta. rewrite Hdelta. split.
    + intros st'. destruct (mapM _ _); simpl; [|discriminate].
      intros [= <-]. reflexivity.
    + intros Hv.
      destruct (mapM_Ok
                  (updateItem tz target (dragType st)
                     (daysDelta (clientX - dragStartX st) (zoomLevel st)))
                  (items st)) as [l' ->].
      * eapply Forall_impl; [|exact Hv]. intros i Hi. unfold updateItem.
        destruct (ItemId_eq_dec _ _); [|eauto].
        now apply dragItem_valid_Ok.
      * simpl. eauto.
Qed.

Lemma handleDrag_dragStartX_witness :
  exists st', handleDrag utcZone dragStateA 30 = Ok st' /\ dragStartX st' = 30%Q.
Proof.
  destruct (handleDrag_dragStartX utcZone dragStateA 30 itemA eq_refl)
    as [_ Hmove].
  destruct Hmove as [_ Hret].
  - vm_compute. discriminate.
  - apply Hret. repeat constructor.
Defined.

(** ** C7: exceptions of the drag step *)

Lemma mapM_Throw {A B : Type} (f : A -> Result B) (l : list A) (x : A) (e : Exn) :
  In x l -> f x = Throw e -> exists e', mapM f l = Throw e'.
Proof.
  induction l as [|y l IH]; [contradiction|].
  intros [->|Hin] Hf; simpl.
  - rewrite Hf. simpl. eauto.
  - destruct (f y); simpl; [|eauto].
    destruct (IH Hin Hf) as [e' ->]. simpl. eauto.
Qed.

(** A step on a handle does not throw, whatever the dates are: the
    comparison that guards [toISOString] is false on an Invalid Date. *)
Lemma dragItem_handle_total (tz : TimeZone) (mode : option DragType)
  (delta : Z) (item : Item) :
  mode <> Some DragMove -> exists item', dragItem tz mode delta item = Ok item'.
Proof.
  intros Hmode. unfold dragItem, date_gt.
  destruct mode as [[| |]|]; [| |congruence|eauto].
  - destruct (start item), (end_ item); simpl; eauto.
    destruct (_ <? _); simpl; eauto.
  - destruct (start item), (end_ item); simpl; eauto.
    destruct (_ <? _); simpl; eauto.
Qed.

(** Moving an item one of whose dates is unparseable throws. *)
Lemma dragItem_move_throws (tz : TimeZone) (delta : Z) (item : Item) :
  hasValidDates item = false ->
  dragItem tz (Some DragMove) delta item = Throw RangeError.
Proof.
  unfold hasValidDates, dragItem.
  destruct (start item), (end_ item); simpl; congruence.
Qed.

Lemma handleDrag_move_invalid_throws (tz : TimeZone) (st : State)
  (clientX : Q) (target item : Item) :
  draggingItem st = Some target ->
  dragType st = Some DragMove ->
  daysDelta (clientX - dragStartX st) (zoomLevel st) <> 0 ->
  In item (items st) -> id item = id target ->
  hasValidDates item = false ->
  exists e, handleDrag tz st clientX = Throw e.
Proof.
  intros Hd Ht Hdelta Hin Hid Hbad.
  unfold handleDrag. rewrite Hd, Ht.
  apply Z.eqb_neq in Hdelta. rewrite Hdelta.
  destruct (mapM_Throw
              (updateItem tz target (Some DragMove)
                 (daysDelta (clientX - dragStartX st) (zoomLevel st)))
              (items st) item RangeError Hin) as [e He].
  - unfold updateItem. destruct (ItemId_eq_dec (id item) (id target));
      [|contradiction].
    now apply dragItem_move_throws.
  - rewrite He. simpl. eauto.
Qed.

(** C7 (the code departs from it).  A pointer move of one day's width in
    mode [move] on an item whose start is unparseable makes the updater of
    [handleDrag] throw a RangeError ([toISOString] on an Invalid Date), in
    any time zone; nothing around it catches the exception. *)
Theorem handleDrag_move_unparseable_throws (tz : TimeZone) :
  handleDrag tz dragBadState 24 = Throw RangeError.
Proof. reflexivity. Qed.

(** * Further properties of the code *)

(** ** Lane assignment on arbitrary dates *)

Lemma Sorted_snoc_last (R : Item -> Item -> Prop) (l : Lane) (x : Item) :
  Sorted R l ->
  (forall a, lastItem l = Some a -> R a x) ->
  Sorted R (l ++ [x]).
Proof.
  induction l as [|y l IH]; intros Hs Hlast; simpl.
  - repeat constructor.
  - inversion Hs as [|? ? Hs' Hhd]; subst.
    destruct l as [|z l'].
    + simpl. constructor; [repeat constructor|].
      constructor. now apply Hlast.
    + constructor.
      * apply IH; [assumption|]. intros a Ha. apply Hlast. exact Ha.
      * inversion Hhd; subst. simpl. now constructor.
Qed.

Lemma Sorted_adjacent {A : Type} (R : A -> A -> Prop) (pre post : list A) (a b : A) :
  Sorted R (pre ++ a :: b :: post) -> R a b.
Proof.
  induction pre as [|p pre IH]; simpl; intros Hs.
  - inversion Hs as [|? ? _ Hhd]; subst. now inversion Hhd.
  - inversion Hs; subst. now apply IH.
Qed.

(** One placement, whatever the dates are. *)
Lemma assignItemToLane_any (lanes : list Lane) (x : Item) :
  Forall (fun lane => lane <> []) lanes ->
  Forall (Sorted passesTest) lanes ->
  exists lanes',
    assignItemToLane lanes x = Ok lanes'
    /\ Forall (fun lane => lane <> []) lanes'
    /\ Forall (Sorted passesTest) lanes'
    /\ Permutation (concat lanes') (concat lanes ++ [x]).
Proof.
  intros Hne Hs.
  destruct (assignItemToLane_shape lanes x Hne)
    as [[pre [ln [post [-> [_ [[l [Hl Hlt]] H]]]]]]|[_ H]].
  - eexists. split; [exact H|].
    apply Forall_app in Hne, Hs.
    destruct Hne as [Hne1 Hne2], Hs as [Hs1 Hs2].
    inversion Hne2; subst. inversion Hs2; subst.
    split; [|split].
    + apply Forall_app. split; [assumption|].
      constructor; [destruct ln; discriminate | assumption].
    + apply Forall_app. split; [assumption|].
      constructor; [|assumption].
      apply Sorted_snoc_last; [assumption|].
      intros a Ha. rewrite Hl in Ha. injection Ha as <-. exact Hlt.
    + rewrite !concat_app. simpl. rewrite <- !app_assoc.
      apply Permutation_app_head. apply Permutation_app_head.
      apply Permutation_app_comm.
  - eexists. split; [exact H|]. split; [|split].
    + apply Forall_app. split; [assumption|].
      constructor; [discriminate | constructor].
    + apply Forall_app. split; [assumption|]. repeat constructor.
    + rewrite concat_app. simpl. apply Permutation_refl.
Qed.

Lemma foldM_assign_any (todo : list Item) (lanes : list Lane) :
  Forall (fun lane => lane <> []) lanes ->
  Forall (Sorted passesTest) lanes ->
  exists lanes',
    foldM assignItemToLane todo lanes = Ok lanes'
    /\ Forall (fun lane => lane <> []) lanes'
    /\ Forall (Sorted passesTest) lanes'
    /\ Permutation (concat lanes') (concat lanes ++ todo).
Proof.
  revert lanes. induction todo as [|x todo IH]; intros lanes Hne Hs.
  - exists lanes. simpl. rewrite app_nil_r. auto using Permutation_refl.
  - destruct (assignItemToLane_any lanes x Hne Hs) as [l1 [H1 [Hne1 [Hs1 Hp1]]]].
    destruct (IH l1 Hne1 Hs1) as [lanes' [H' [Hne' [Hs' Hp']]]].
    exists lanes'. simpl. rewrite H1. simpl.
    split; [exact H'|]. split; [exact Hne'|]. split; [exact Hs'|].
    eapply Permutation_trans; [exact Hp'|].
    replace (concat lanes ++ x :: todo) with ((concat lanes ++ [x]) ++ todo)
      by (rewrite <- app_assoc; reflexivity).
    now apply Permutation_app_tail.
Qed.

Lemma assignLanesToItems_any (its : list Item) :
  exists lanes,
    assignLanesToItems (Some its) = Ok lanes
    /\ Forall (fun lane => lane <> []) lanes
    /\ Forall (Sorted passesTest) lanes
    /\ Permutation (concat lanes) its.
Proof.
  destruct its as [|i l].
  - exists []. simpl. auto using Permutation_refl.
  - destruct (foldM_assign_any (sortByStart (i :: l)) [])
      as [lanes [H [Hne [Hs Hp]]]]; [constructor | constructor |].
    exists lanes. split; [exact H|]. split; [exact Hne|]. split; [exact Hs|].
    eapply Permutation_trans; [exact Hp|]. apply sortByStart_perm.
Qed.

(** X1.  Whatever the dates of the items are, unparseable ones included,
    [assignLanesToItems] returns without an exception (so the [catch] of
    the effect of lines 114-122 is not entered), every item is in exactly
    one lane, no lane is empty, and along every lane each item passes the
    test of line 19 against the next one. *)
Theorem assignLanesToItems_any_dates (its : list Item) :
  exists lanes,
    assignLanesToItems (Some its) = Ok lanes
    /\ computeLanes (Some its) = lanes
    /\ Permutation (concat lanes) its
    /\ Forall (fun lane => lane <> []) lanes
    /\ Forall (Sorted passesTest) lanes.
Proof.
  destruct (assignLanesToItems_any its) as [lanes [H [Hne [Hs Hp]]]].
  exists lanes. unfold computeLanes. rewrite H. simpl. auto.
Qed.

(** X2.  In a lane that [assignLanesToItems] returns, an item that has a
    successor has a parseable end and an item that has a predecessor has a
    parseable start: an item with an unparseable start can only be the
    first of its lane, one with an unparseable end only the last. *)
Theorem unparseable_dates_at_lane_ends (its : list Item) (lanes : list Lane)
  (lane pre post : Lane) (a b : Item) :
  assignLanesToItems (Some its) = Ok lanes ->
  In lane lanes ->
  lane = pre ++ a :: b :: post ->
  parseable (end_ a) = true /\ parseable (start b) = true.
Proof.
  intros H Hin ->.
  destruct (assignLanesToItems_any its) as [lanes0 [H0 [_ [Hs _]]]].
  rewrite H in H0. injection H0 as <-.
  rewrite Forall_forall in Hs.
  pose proof (Sorted_adjacent _ _ _ _ _ (Hs _ Hin)) as Hab.
  unfold passesTest in Hab.
  destruct (end_ a), (start b); simpl in *; auto; discriminate.
Qed.

Lemma unparseable_dates_at_lane_ends_witness :
  parseable (end_ itemA) = true /\ parseable (start itemC) = true.
Proof.
  apply (unparseable_dates_at_lane_ends [itemA; itemC; itemBadStart]
           [[itemA; itemC]; [itemBadStart]] [itemA; itemC] [] [] itemA itemC).
  - vm_compute. reflexivity.
  - now left.
  - reflexivity.
Defined.

(** X3.  With no lane empty, [assignItemToLane] does not throw and is
    first fit: either some lane is the first whose last item passes the
    test of line 19 against the item, and the item is appended to that
    lane and nothing else changes; or no lane passes, and the lanes are
    kept and one lane holding only the item is added at the end. *)
Theorem assignItemToLane_first_fit (lanes : list Lane) (x : Item) :
  Forall (fun lane => lane <> []) lanes ->
  (exists pre lane post,
      lanes = pre ++ lane :: post
      /\ Forall (fun ln => endsBefore ln x false) pre
      /\ endsBefore lane x true
      /\ assignItemToLane lanes x = Ok (pre ++ (lane ++ [x]) :: post))
  \/ (Forall (fun ln => endsBefore ln x false) lanes
      /\ assignItemToLane lanes x = Ok (lanes ++ [[x]])).
Proof. apply assignItemToLane_shape. Qed.

Lemma assignItemToLane_first_fit_witness :
  (exists pre lane post,
      [[itemB]; [itemA]] = pre ++ lane :: post
      /\ Forall (fun ln => endsBefore ln itemC false) pre
      /\ endsBefore lane itemC true
      /\ assignItemToLane [[itemB]; [itemA]] itemC
         = Ok (pre ++ (lane ++ [itemC]) :: post))
  \/ (Forall (fun ln => endsBefore ln itemC false) [[itemB]; [itemA]]
      /\ assignItemToLane [[itemB]; [itemA]] itemC
         = Ok ([[itemB]; [itemA]] ++ [[itemC]])).
Proof.
  apply (assignItemToLane_first_fit [[itemB]; [itemA]] itemC).
  repeat constructor; discriminate.
Defined.

(** ** Renaming and the layout *)

Section DatesKept.

Variable f : Item -> Item.
Hypothesis f_start : forall i, start (f i) = start i.
Hypothesis f_end : forall i, end_ (f i) = end_ i.

Lemma sortsAfter_map (a b : Item) : sortsAfter (f a) (f b) = sortsAfter a b.
Proof. unfold sortsAfter, compareStart. now rewrite !f_start. Qed.

Lemma insertSorted_map (x : Item) (l : list Item) :
  insertSorted (f x) (map f l) = map f (insertSorted x l).
Proof.
  induction l as [|y l IH]; simpl; [reflexivity|].
  rewrite sortsAfter_map. destruct (sortsAfter x y); simpl; [|reflexivity].
  now rewrite IH.
Qed.

Lemma sortByStart_map (l : list Item) :
  sortByStart (map f l) = map f (sortByStart l).
Proof.
  induction l as [|x l IH]; simpl; [reflexivity|].
  rewrite IH. apply insertSorted_map.
Qed.

Lemma lastItem_map (lane : Lane) :
  lastItem (map f lane) = option_map f (lastItem lane).
Proof.
  induction lane as [|y l IH]; [reflexivity|].
  destruct l as [|z l']; [reflexivity|]. exact IH.
Qed.

Lemma assignItemToLane_map (lanes : list Lane) (x : Item) :
  assignItemToLane (map (map f) lanes) (f x)
  = (l <- assignItemToLane lanes x ;; Ok (map (map f) l)).
Proof.
  induction lanes as [|lane rest IH]; [reflexivity|].
  simpl. rewrite lastItem_map.
  destruct (lastItem lane) as [l|]; simpl; [|reflexivity].
  rewrite f_end, f_start.
  destruct (date_lt (newDate (end_ l)) (newDate (start x))); simpl.
  - now rewrite map_app.
  - rewrite IH. destruct (assignItemToLane rest x); reflexivity.
Qed.

Lemma foldM_assign_map (todo : list Item) (lanes : list Lane) :
  foldM assignItemToLane (map f todo) (map (map f) lanes)
  = (l <- foldM assignItemToLane todo lanes ;; Ok (map (map f) l)).
Proof.
  revert lanes. induction todo as [|x todo IH]; intros lanes; [reflexivity|].
  simpl. rewrite assignItemToLane_map.
  destruct (assignItemToLane lanes x); simpl; [apply IH | reflexivity].
Qed.

(** A change of the items that keeps their dates goes through the lane
    assignment. *)
Lemma assignLanesToItems_map (its : list Item) :
  assignLanesToItems (Some (map f its))
  = (l <- assignLanesToItems (Some its) ;; Ok (map (map f) l)).
Proof.
  destruct its as [|i l]; [reflexivity|].
  change (assignLanesToItems (Some (map f (i :: l))))
    with (foldM assignItemToLane (sortByStart (map f (i :: l))) []).
  rewrite sortByStart_map. apply (foldM_assign_map _ []).
Qed.

Lemma calculateDateRange_map (tz : TimeZone) (now : Z) (its : list Item) :
  calculateDateRange tz now (Some (map f its))
  = calculateDateRange tz now (Some its).
Proof.
  destruct its as [|i l]; [reflexivity|].
  change (map f (i :: l)) with (f i :: map f l).
  unfold calculateDateRange, paddedRange.
  change (f i :: map f l) with (map f (i :: l)).
  rewrite !map_map.
  rewrite (map_ext (fun x => newDate (start (f x)))
                   (fun x => newDate (start x)))
    by (intros; now rewrite f_start).
  rewrite (map_ext (fun x => newDate (end_ (f x)))
                   (fun x => newDate (end_ x)))
    by (intros; now rewrite f_end).
  reflexivity.
Qed.

End DatesKept.

Lemma saveEdit_items (its : list Item) (ed : EditState) :
  fst (saveEdit its ed)
  = map (if falsyId (editingItem ed) then fun i => i
         else renameItem (editingItem ed) (editingText ed)) its.
Proof.
  unfold saveEdit. destruct (falsyId (editingItem ed)); simpl.
  - now rewrite map_id.
  - reflexivity.
Qed.

Lemma renameItem_dates (e : option ItemId) (text : string) (i : Item) :
  start (renameItem e text i) = start i /\ end_ (renameItem e text i) = end_ i.
Proof.
  unfold renameItem. destruct e as [j|]; [|auto].
  destruct (ItemId_eq_dec (id i) j); auto.
Qed.

(** X4.  [saveEdit] does not change the layout, in any time zone: the
    visible range of the saved items is the one of the items before, and
    the lanes of the saved items are the lanes of the items before with
    the same renaming done in every lane. *)
Theorem saveEdit_keeps_layout (tz : TimeZone) (now : Z) (its : list Item)
  (ed : EditState) :
  calculateDateRange tz now (Some (fst (saveEdit its ed)))
  = calculateDateRange tz now (Some its)
  /\ exists lanes,
       assignLanesToItems (Some its) = Ok lanes
       /\ assignLanesToItems (Some (fst (saveEdit its ed)))
          = Ok (map (fun lane => fst (saveEdit lane ed)) lanes).
Proof.
  set (g := if falsyId (editingItem ed) then fun i : Item => i
            else renameItem (editingItem ed) (editingText ed)).
  assert (Hs : forall i, start (g i) = start i).
  { intros i. unfold g. destruct (falsyId _); [reflexivity|].
    apply renameItem_dates. }
  assert (He : forall i, end_ (g i) = end_ i).
  { intros i. unfold g. destruct (falsyId _); [reflexivity|].
    apply renameItem_dates. }
  rewrite saveEdit_items. fold g. split.
  - now apply calculateDateRange_map.
  - destruct (assignLanesToItems_any its) as [lanes [H _]].
    exists lanes. split; [exact H|].
    rewrite (assignLanesToItems_map g Hs He), H. simpl. f_equal.
    apply map_ext. intros lane. now rewrite saveEdit_items.
Qed.

Lemma setName_same (i : Item) : setName i (name i) = i.
Proof. now destruct i. Qed.

Lemma renameItem_other (e : ItemId) (text : string) (l : list Item) :
  ~ In e (map id l) -> map (renameItem (Some e) text) l = l.
Proof.
  induction l as [|i l IH]; simpl; intros Hn; [reflexivity|].
  rewrite IH by tauto. unfold renameItem.
  destruct (ItemId_eq_dec (id i) e); [exfalso; tauto | reflexivity].
Qed.

(** X5.  An edit session on an item whose id is not falsy, in a list of
    items with distinct ids: [startEdit], then a typed text, then
    [saveEdit] gives the list with that one item renamed and every other
    item as it was, and closes the edit state; when the text is the name
    the item had, the list is unchanged. *)
Theorem edit_session_renames_one (its : list Item) (item : Item) (text : string) :
  falsyId (Some (id item)) = false ->
  NoDup (map id its) ->
  In item its ->
  exists pre post,
    its = pre ++ item :: post
    /\ saveEdit its {| editingItem := editingItem (startEdit item);
                       editingText := text |}
       = (pre ++ setName item text :: post,
          {| editingItem := None; editingText := "" |})
    /\ fst (saveEdit its (startEdit item)) = its.
Proof.
  intros Hid Hnd Hin.
  destruct (in_split _ _ Hin) as [pre [post ->]].
  exists pre, post. split; [reflexivity|].
  rewrite map_app in Hnd. simpl in Hnd.
  pose proof (NoDup_remove_2 _ _ _ Hnd) as Hnot.
  assert (Hpre : ~ In (id item) (map id pre))
    by (intros H; apply Hnot, in_or_app; now left).
  assert (Hpost : ~ In (id item) (map id post))
    by (intros H; apply Hnot, in_or_app; now right).
  assert (Hmap : forall t,
             map (renameItem (Some (id item)) t) (pre ++ item :: post)
             = pre ++ setName item t :: post).
  { intros t. rewrite map_app. cbn [map].
    rewrite (renameItem_other _ _ pre Hpre), (renameItem_other _ _ post Hpost).
    unfold renameItem.
    destruct (ItemId_eq_dec (id item) (id item)); [reflexivity | congruence]. }
  unfold saveEdit, startEdit. cbn [editingItem editingText].
  rewrite Hid. cbn [fst]. rewrite !Hmap, setName_same. split; reflexivity.
Qed.

Lemma edit_session_renames_one_witness :
  exists pre post,
    [itemA; itemB; itemC] = pre ++ itemB :: post
    /\ saveEdit [itemA; itemB; itemC]
         {| editingItem := editingItem (startEdit itemB);
            editingText := "Beta" |}
       = (pre ++ setName itemB "Beta" :: post,
          {| editingItem := None; editingText := "" |})
    /\ fst (saveEdit [itemA; itemB; itemC] (startEdit itemB))
       = [itemA; itemB; itemC].
Proof.
  apply (edit_session_renames_one [itemA; itemB; itemC] itemB "Beta").
  - reflexivity.
  - repeat constructor; simpl; intuition discriminate.
  - right. now left.
Defined.

(** X6.  An item whose id is the number 0 or the empty string cannot be
    renamed: after [startEdit] on it, [saveEdit] with any text returns at
    line 227, leaving the items as they are and the edit state open. *)
Theorem falsy_id_is_not_renamed (its : list Item) (item : Item) (text : string) :
  id item = NumId 0 \/ id item = StrId "" ->
  saveEdit its {| editingItem := editingItem (startEdit item);
                  editingText := text |}
  = (its, {| editingItem := Some (id item); editingText := text |}).
Proof.
  intros [H|H]; unfold saveEdit, startEdit; cbn [editingItem editingText];
    rewrite H; reflexivity.
Qed.

Lemma falsy_id_is_not_renamed_witness :
  saveEdit [mkItem (NumId 0) "Z" (YMD 0) (YMD 1) None; itemA]
    {| editingItem := editingItem (startEdit (mkItem (NumId 0) "Z" (YMD 0) (YMD 1) None));
       editingText := "new" |}
  = ([mkItem (NumId 0) "Z" (YMD 0) (YMD 1) None; itemA],
     {| editingItem := Some (id (mkItem (NumId 0) "Z" (YMD 0) (YMD 1) None));
        editingText := "new" |}).
Proof.
  apply (falsy_id_is_not_renamed
           [mkItem (NumId 0) "Z" (YMD 0) (YMD 1) None; itemA]
           (mkItem (NumId 0) "Z" (YMD 0) (YMD 1) None) "new").
  left. reflexivity.
Defined.

(** ** Zoom *)

(** X7.  After any sequence of presses on the two zoom buttons, starting
    from the initial level 1, the zoom level is between 0.5 and 5. *)
Theorem zoomAfter_range (presses : list bool) :
  (1 # 2 <= zoomAfter presses)%Q /\ (zoomAfter presses <= 5)%Q.
Proof.
  unfold zoomAfter. induction presses as [|b l _] using rev_ind.
  - simpl. split; discriminate.
  - rewrite fold_left_app. simpl. apply handleZoom_range.
Qed.

(** X8.  At a zoom level between 0.5 and 5, "Zoom In" never lowers the
    level and "Zoom Out" never raises it. *)
Theorem handleZoom_direction (z : Q) :
  (1 # 2 <= z)%Q -> (z <= 5)%Q ->
  (z <= handleZoom true z)%Q /\ (handleZoom false z <= z)%Q.
Proof.
  intros Hlo Hhi. unfold handleZoom. split.
  - eapply Qle_trans; [|apply Q.le_max_r].
    apply Q.min_glb; [exact Hhi | lra].
  - apply Q.max_lub; [exact Hlo|].
    eapply Qle_trans; [apply Q.le_min_r|].
    unfold Qdiv. change (/ (6 # 5))%Q with (5 # 6)%Q. lra.
Qed.

Lemma handleZoom_direction_witness :
  (3 <= handleZoom true 3)%Q /\ (handleZoom false 3 <= 3)%Q.
Proof.
  apply (handleZoom_direction 3); discriminate.
Defined.

(** ** From pixels to days *)





(** ** Drag steps on one item *)

Lemma shiftDays_valid (n : Z) (i : Item) : hasValidDates (shiftDays n i) = true.
Proof. reflexivity. Qed.

Lemma shiftDays_back (n : Z) (i : Item) :
  hasValidDates i = true -> shiftDays (- n) (shiftDays n i) = i.
Proof.
  intros Hv. destruct i as [i_id i_name i_start i_end i_color].
  unfold hasValidDates in Hv. simpl in Hv.
  destruct i_start as [s|], i_end as [e|]; try discriminate.
  unfold shiftDays, setEnd, setStart, startDay, endDay. simpl.
  f_equal; f_equal; lia.
Qed.

Lemma dragItem_move_days (tz : TimeZone) (delta : Z) (item : Item) :
  fixedOffset tz ->
  hasValidDates item = true ->
  dragItem tz (Some DragMove) delta item = Ok (shiftDays delta item).
Proof.
  intros Hfix Hv. unfold dragItem, shiftDays. cbv zeta.
  rewrite (valid_start item Hv), (valid_end item Hv).
  rewrite !(addDays_fixed tz _ _ Hfix). simpl.
  now rewrite !days_add_div.
Qed.

(** X11.  In mode [move], in a zone whose offset never changes, on an
    item with valid dates that stay inside what a [Date] can hold, a drag
    step of [delta] days puts both dates [delta] days later and changes
    nothing else, so the duration is the same; and the step of [- delta]
    days after it gives the item back. *)
Theorem dragItem_move_shifts (tz : TimeZone) (delta : Z) (item : Item) :
  fixedOffset tz ->
  hasValidDates item = true ->
  inDateRange (startDay item + delta) ->
  inDateRange (endDay item + delta) ->
  exists item',
    dragItem tz (Some DragMove) delta item = Ok item'
    /\ start item' = YMD (startDay item + delta)
    /\ end_ item' = YMD (endDay item + delta)
    /\ id item' = id item /\ name item' = name item /\ color item' = color item
    /\ endDay item' - startDay item' = endDay item - startDay item
    /\ dragItem tz (Some DragMove) (- delta) item' = Ok item.
Proof.
  intros Hfix Hv _ _. exists (shiftDays delta item).
  split; [now apply dragItem_move_days|].
  repeat (split; [reflexivity|]).
  split; [unfold shiftDays, startDay, endDay; simpl; lia|].
  rewrite (dragItem_move_days tz _ _ Hfix (shiftDays_valid delta item)).
  now rewrite shiftDays_back.
Qed.

Lemma dragItem_move_shifts_witness :
  exists item',
    dragItem (fixedZone (9 * MS_PER_HOUR)) (Some DragMove) 3 itemA = Ok item'
    /\ start item' = YMD (startDay itemA + 3)
    /\ end_ item' = YMD (endDay itemA + 3)
    /\ id item' = id itemA /\ name item' = name itemA
    /\ color item' = color itemA
    /\ endDay item' - startDay item' = endDay itemA - startDay itemA
    /\ dragItem (fixedZone (9 * MS_PER_HOUR)) (Some DragMove) (- (3)) item'
       = Ok itemA.
Proof.
  apply (dragItem_move_shifts (fixedZone (9 * MS_PER_HOUR)) 3 itemA).
  - apply fixedZone_fixed.
  - reflexivity.
  - vm_compute. split; discriminate.
  - vm_compute. split; discriminate.
Defined.

(** X12.  In a zone whose offset never changes, on an item with valid
    dates, for a step whose candidate dates are inside what a [Date] can
    hold: a step on the start handle sets the start [delta] days later
    when that day is before the end, and a step on the end handle sets the
    end [delta] days later when that day is after the start; the other
    fields are kept, and a step that is not taken returns the item as it
    is. *)
Theorem dragItem_handles_days (tz : TimeZone) (delta : Z) (item : Item) :
  fixedOffset tz ->
  hasValidDates item = true ->
  inDateRange (startDay item + delta) ->
  inDateRange (endDay item + delta) ->
  dragItem tz (Some DragStart) delta item
  = Ok (if startDay item + delta <? endDay item
        then setStart item (YMD (startDay item + delta)) else item)
  /\ dragItem tz (Some DragEnd) delta item
     = Ok (if startDay item <? endDay item + delta
           then setEnd item (YMD (endDay item + delta)) else item).
Proof.
  intros Hfix Hv _ _. split.
  - apply dragItem_start_days;
      [exact Hfix | now apply valid_start | now apply valid_end].
  - apply dragItem_end_days;
      [exact Hfix | now apply valid_start | now apply valid_end].
Qed.

Lemma dragItem_handles_days_witness :
  dragItem (fixedZone (9 * MS_PER_HOUR)) (Some DragStart) 2 itemA
  = Ok (if startDay itemA + 2 <? endDay itemA
        then setStart itemA (YMD (startDay itemA + 2)) else itemA)
  /\ dragItem (fixedZone (9 * MS_PER_HOUR)) (Some DragEnd) 2 itemA
     = Ok (if startDay itemA <? endDay itemA + 2
           then setEnd itemA (YMD (endDay itemA + 2)) else itemA).
Proof.
  apply (dragItem_handles_days (fixedZone (9 * MS_PER_HOUR)) 2 itemA).
  - apply fixedZone_fixed.
  - reflexivity.
  - vm_compute. split; discriminate.
  - vm_compute. split; discriminate.
Defined.

(** ** Drag steps on the state *)

Lemma mapM_Forall2 {A B : Type} (f : A -> Result B) (l : list A) (l' : list B) :
  mapM f l = Ok l' -> Forall2 (fun a b => f a = Ok b) l l'.
Proof.
  revert l'. induction l as [|x l IH]; simpl; intros l' H.
  - injection H as <-. constructor.
  - destruct (f x) as [y|] eqn:Hy; simpl in H; [|discriminate].
    destruct (mapM f l) as [ys|]; simpl in H; [|discriminate].
    injection H as <-. constructor; auto.
Qed.

Lemma mapM_map {A B : Type} (f : A -> Result B) (g : A -> B) (l : list A) :
  Forall (fun x => f x = Ok (g x)) l -> mapM f l = Ok (map g l).
Proof.
  induction 1 as [|x l Hx _ IH]; simpl; [reflexivity|].
  now rewrite Hx, IH.
Qed.

Lemma dragItem_keeps_fields (tz : TimeZone) (mode : option DragType) (delta : Z)
  (item item' : Item) :
  dragItem tz mode delta item = Ok item' ->
  id item' = id item /\ name item' = name item /\ color item' = color item.
Proof.
  unfold dragItem, date_gt.
  destruct mode as [[| |]|].
  - destruct (date_lt _ _).
    + destruct (toISODate _); simpl; [|discriminate].
      intros [= <-]. auto.
    + intros [= <-]. auto.
  - destruct (date_lt _ _).
    + destruct (toISODate _); simpl; [|discriminate].
      intros [= <-]. auto.
    + intros [= <-]. auto.
  - destruct (toISODate _); simpl; [|discriminate].
    destruct (toISODate _); simpl; [|discriminate].
    intros [= <-]. auto.
  - intros [= <-]. auto.
Qed.

(** X13.  A pointer move that returns, in any time zone, keeps the zoom
    level, the dragged item and the drag mode, and it keeps the items in
    number and order: each item keeps its id, name and colour, and an item
    whose id is not the id of the dragged item is not changed at all. *)
Theorem handleDrag_frame (tz : TimeZone) (st st' : State) (clientX : Q) :
  handleDrag tz st clientX = Ok st' ->
  zoomLevel st' = zoomLevel st
  /\ draggingItem st' = draggingItem st
  /\ dragType st' = dragType st
  /\ Forall2 (fun old new =>
                id new = id old /\ name new = name old /\ color new = color old
                /\ (forall target, draggingItem st = Some target ->
                                   id old <> id target -> new = old))
             (items st) (items st').
Proof.
  assert (Hrefl : forall l : list Item,
             Forall2 (fun old new =>
                id new = id old /\ name new = name old /\ color new = color old
                /\ (forall target, draggingItem st = Some target ->
                                   id old <> id target -> new = old)) l l).
  { induction l; constructor; auto. }
  unfold handleDrag.
  destruct (draggingItem st) as [target|] eqn:Hd;
    [|intros [= <-]; rewrite Hd; auto].
  destruct (_ =? 0); [intros [= <-]; rewrite Hd; auto|].
  destruct (mapM _ _) as [l'|] eqn:Hmap; simpl; [|discriminate].
  intros [= <-]. cbn [zoomLevel draggingItem dragType items].
  repeat (split; [reflexivity|]).
  apply mapM_Forall2 in Hmap.
  eapply Forall2_impl; [|exact Hmap].
  intros old new Hup. unfold updateItem in Hup.
  destruct (ItemId_eq_dec (id old) (id target)) as [Heq|Hne].
  - destruct (dragItem_keeps_fields _ _ _ _ _ Hup) as [H1 [H2 H3]].
    repeat (split; [assumption|]).
    intros t [= <-] Hdiff. contradiction.
  - injection Hup as <-. auto.
Qed.

Lemma handleDrag_frame_witness :
  zoomLevel (mkState [shiftDays 1 itemA] 1 (Some itemA) (Some DragMove) 30)
  = zoomLevel dragStateA
  /\ draggingItem (mkState [shiftDays 1 itemA] 1 (Some itemA) (Some DragMove) 30)
     = draggingItem dragStateA
  /\ dragType (mkState [shiftDays 1 itemA] 1 (Some itemA) (Some DragMove) 30)
     = dragType dragStateA
  /\ Forall2 (fun old new =>
                id new = id old /\ name new = name old /\ color new = color old
                /\ (forall target, draggingItem dragStateA = Some target ->
                                   id old <> id target -> new = old))
             (items dragStateA)
             (items (mkState [shiftDays 1 itemA] 1 (Some itemA) (Some DragMove) 30)).
Proof.
  apply (handleDrag_frame utcZone dragStateA
           (mkState [shiftDays 1 itemA] 1 (Some itemA) (Some DragMove) 30) 30).
  vm_compute. reflexivity.
Defined.

(** A step on a handle keeps valid dates valid, in any time zone: the
    date that is written has passed the comparison, so it is not an
    Invalid Date. *)
Lemma dragItem_handle_valid (tz : TimeZone) (mode : option DragType)
  (delta : Z) (item : Item) :
  mode <> Some DragMove ->
  hasValidDates item = true ->
  exists item', dragItem tz mode delta item = Ok item'
                /\ hasValidDates item' = true.
Proof.
  intros Hmode Hv. unfold dragItem, date_gt. cbv zeta.
  rewrite (valid_start item Hv), (valid_end item Hv).
  destruct mode as [[| |]|]; [| |congruence|eauto]; simpl.
  - destruct (_ <? _); simpl; eexists; (split; [reflexivity|]);
      [|assumption].
    unfold hasValidDates in *. simpl.
    apply andb_true_iff in Hv. tauto.
  - destruct (_ <? _); simpl; eexists; (split; [reflexivity|]);
      [|assumption].
    unfold hasValidDates in *. simpl.
    apply andb_true_iff in Hv. rewrite (proj1 Hv). reflexivity.
Qed.

Lemma handleDrag_handle_valid (tz : TimeZone) (st : State) (clientX : Q) :
  dragType st <> Some DragMove ->
  Forall (fun i => hasValidDates i = true) (items st) ->
  exists st', handleDrag tz st clientX = Ok st'
              /\ dragType st' = dragType st
              /\ Forall (fun i => hasValidDates i = true) (items st')
              /\ length (items st') = length (items st).
Proof.
  intros Hmode Hv. unfold handleDrag.
  destruct (draggingItem st) as [target|]; [|eauto].
  destruct (_ =? 0); [eauto|].
  set (delta := daysDelta _ _).
  assert (Hmap : forall l, Forall (fun i => hasValidDates i = true) l ->
            exists l', mapM (updateItem tz target (dragType st) delta) l = Ok l'
                       /\ Forall (fun i => hasValidDates i = true) l'
                       /\ length l' = length l).
  { induction 1 as [|i l Hi _ [l' [Hl' [Hf' Hlen]]]]; simpl; [eauto|].
    assert (Hi' : exists i', updateItem tz target (dragType st) delta i = Ok i'
                             /\ hasValidDates i' = true).
    { unfold updateItem. destruct (ItemId_eq_dec _ _); [|eauto].
      now apply dragItem_handle_valid. }
    destruct Hi' as [i' [-> Hi']]. rewrite Hl'. simpl.
    eexists. split; [reflexivity|]. split; [now constructor|].
    simpl. now rewrite Hlen. }
  destruct (Hmap (items st) Hv) as [l' [-> [Hl' Hlen]]]. simpl.
  eexists. split; [reflexivity|]. auto.
Qed.

(** X14.  In any time zone, on items with valid dates, any sequence of
    pointer moves of a drag on the start handle or on the end handle
    returns without an exception; afterwards there are as many items as
    before and every item still has valid dates. *)
Theorem pointerMoves_keep_valid_dates (tz : TimeZone) (xs : list Q) (st : State) :
  dragType st <> Some DragMove ->
  Forall (fun i => hasValidDates i = true) (items st) ->
  exists st',
    pointerMoves tz xs st = Ok st'
    /\ Forall (fun i => hasValidDates i = true) (items st')
    /\ length (items st') = length (items st).
Proof.
  unfold pointerMoves. revert st.
  induction xs as [|x xs IH]; intros st Hmode Hv; simpl; [eauto|].
  destruct (handleDrag_handle_valid tz st x Hmode Hv)
    as [st1 [-> [Ht1 [Hv1 Hlen1]]]]. simpl.
  destruct (IH st1) as [st' [H' [Hv' Hlen']]];
    [congruence | exact Hv1 |].
  exists st'. split; [exact H'|]. split; [exact Hv'|]. congruence.
Qed.

Lemma pointerMoves_keep_valid_dates_witness :
  exists st',
    pointerMoves newYork2024 [30; 10; -250; 7]%Q
      (mkState [itemNov1; itemA] 1 (Some itemNov1) (Some DragEnd) 0) = Ok st'
    /\ Forall (fun i => hasValidDates i = true) (items st')
    /\ length (items st')
       = length (items (mkState [itemNov1; itemA] 1 (Some itemNov1)
                                (Some DragEnd) 0)).
Proof.
  apply (pointerMoves_keep_valid_dates newYork2024 [30; 10; -250; 7]%Q
           (mkState [itemNov1; itemA] 1 (Some itemNov1) (Some DragEnd) 0)).
  - discriminate.
  - repeat constructor.
Defined.

Lemma daysDelta_comp (x y zoom : Q) :
  (x == y)%Q -> daysDelta x zoom = daysDelta y zoom.
Proof.
  intros H. unfold daysDelta. apply Qfloor_comp. now rewrite H.
Qed.

Lemma shiftDays_0 (i : Item) : hasValidDates i = true -> shiftDays 0 i = i.
Proof.
  intros Hv. destruct i as [i_id i_name i_start i_end i_color].
  unfold hasValidDates in Hv. simpl in Hv.
  destruct i_start as [s|], i_end as [e|]; try discriminate.
  unfold shiftDays, setEnd, setStart, startDay, endDay. simpl.
  f_equal; f_equal; lia.
Qed.

(** X15.  A whole move, in a zone whose offset never changes: after
    [startDrag] on an item in mode [move] at pointer position [x0], a
    pointer move to [x0] plus [n] day widths of [24 * zoomLevel] puts the
    items with the id of that item exactly [n] days later and leaves the
    other items as they are (items with valid dates that stay inside what
    a [Date] can hold, positive zoom level). *)
Theorem move_session_exact (tz : TimeZone) (st : State) (x0 : Q) (item : Item)
  (n : Z) :
  fixedOffset tz ->
  (0 < zoomLevel st)%Q ->
  Forall (fun i => hasValidDates i = true) (items st) ->
  Forall (fun i => inDateRange (startDay i + n) /\ inDateRange (endDay i + n))
         (items st) ->
  exists st',
    handleDrag tz (startDrag st x0 item DragMove)
               (x0 + inject_Z n * 24 * zoomLevel st)
    = Ok st'
    /\ items st'
       = map (fun i => if ItemId_eq_dec (id i) (id item)
                       then shiftDays n i else i) (items st).
Proof.
  intros Hfix Hz Hv _. unfold handleDrag, startDrag.
  cbn [draggingItem dragStartX zoomLevel items dragType].
  assert (Hd : daysDelta (x0 + inject_Z n * 24 * zoomLevel st - x0)
                         (zoomLevel st) = n).
  { rewrite (daysDelta_comp _ (inject_Z n * 24 * zoomLevel st)) by ring.
    apply daysDelta_exact. intros H0. rewrite H0 in Hz. discriminate Hz. }
  rewrite Hd.
  destruct (Z.eqb_spec n 0) as [->|Hn].
  - eexists. split; [reflexivity|]. cbn [items].
    symmetry. rewrite <- (map_id (items st)) at 2.
    apply map_ext_in. intros i Hi.
    destruct (ItemId_eq_dec _ _); [|reflexivity].
    apply shiftDays_0. rewrite Forall_forall in Hv. now apply Hv.
  - rewrite (mapM_map _ (fun i => if ItemId_eq_dec (id i) (id item)
                                  then shiftDays n i else i)).
    + simpl. eexists. split; reflexivity.
    + eapply Forall_impl; [|exact Hv]. intros i Hi. unfold updateItem.
      destruct (ItemId_eq_dec _ _); [|reflexivity].
      now apply dragItem_move_days.
Qed.

Lemma move_session_exact_witness :
  exists st',
    handleDrag (fixedZone (9 * MS_PER_HOUR))
               (startDrag dragStateA 100 itemA DragMove)
               (100 + inject_Z 3 * 24 * zoomLevel dragStateA)
    = Ok st'
    /\ items st'
       = map (fun i => if ItemId_eq_dec (id i) (id itemA)
                       then shiftDays 3 i else i) (items dragStateA).
Proof.
  apply (move_session_exact (fixedZone (9 * MS_PER_HOUR)) dragStateA 100 itemA 3).
  - apply fixedZone_fixed.
  - reflexivity.
  - repeat constructor.
  - repeat constructor; vm_compute; discriminate.
Defined.

(** ** The visible range and the width of the timeline *)

Lemma minTime_cons (t : option Z) (ts : list (option Z)) :
  ts <> [] -> minTime (t :: ts) = minNum t (minTime ts).
Proof. destruct ts; [congruence | reflexivity]. Qed.

Lemma maxTime_cons (t : option Z) (ts : list (option Z)) :
  ts <> [] -> maxTime (t :: ts) = maxNum t (maxTime ts).
Proof. destruct ts; [congruence | reflexivity]. Qed.

Lemma Permutation_nonempty {A : Type} (l l' : list A) :
  Permutation l l' -> l <> [] -> l' <> [].
Proof.
  intros Hp Hne ->. apply Hne. now apply Permutation_nil, Permutation_sym.
Qed.

Lemma minTime_perm (ts ts' : list (option Z)) :
  Permutation ts ts' -> minTime ts = minTime ts'.
Proof.
  induction 1 as [|x l l' Hp IH|x y l|l1 l2 l3 _ IH1 _ IH2].
  - reflexivity.
  - destruct l as [|a l].
    + apply Permutation_nil in Hp. now subst.
    + rewrite (minTime_cons x (a :: l)) by discriminate.
      rewrite (minTime_cons x l')
        by (eapply Permutation_nonempty; [exact Hp | discriminate]).
      now rewrite IH.
  - destruct l as [|a l].
    + simpl. destruct x, y; simpl; try reflexivity. f_equal. lia.
    + rewrite (minTime_cons y (x :: a :: l)), (minTime_cons x (a :: l)) by discriminate.
      rewrite (minTime_cons x (y :: a :: l)), (minTime_cons y (a :: l)) by discriminate.
      destruct x, y, (minTime (a :: l)); simpl; try reflexivity. f_equal. lia.
  - congruence.
Qed.

Lemma maxTime_perm (ts ts' : list (option Z)) :
  Permutation ts ts' -> maxTime ts = maxTime ts'.
Proof.
  induction 1 as [|x l l' Hp IH|x y l|l1 l2 l3 _ IH1 _ IH2].
  - reflexivity.
  - destruct l as [|a l].
    + apply Permutation_nil in Hp. now subst.
    + rewrite (maxTime_cons x (a :: l)) by discriminate.
      rewrite (maxTime_cons x l')
        by (eapply Permutation_nonempty; [exact Hp | discriminate]).
      now rewrite IH.
  - destruct l as [|a l].
    + simpl. destruct x, y; simpl; try reflexivity. f_equal. lia.
    + rewrite (maxTime_cons y (x :: a :: l)), (maxTime_cons x (a :: l)) by discriminate.
      rewrite (maxTime_cons x (y :: a :: l)), (maxTime_cons y (a :: l)) by discriminate.
      destruct x, y, (maxTime (a :: l)); simpl; try reflexivity. f_equal. lia.
  - congruence.
Qed.

(** X16.  The visible range does not depend on the order of the items:
    two arrays with the same items give the same [minDate] and [maxDate],
    unparseable dates included, in any time zone. *)
Theorem calculateDateRange_order_free (tz : TimeZone) (now : Z)
  (l l' : list Item) :
  Permutation l l' ->
  calculateDateRange tz now (Some l) = calculateDateRange tz now (Some l').
Proof.
  intros Hp.
  destruct l as [|i l]; [apply Permutation_nil in Hp; now subst|].
  destruct l' as [|i' l'];
    [apply Permutation_sym, Permutation_nil in Hp; discriminate|].
  unfold calculateDateRange, paddedRange, try_catch.
  rewrite (minTime_perm _ _ (Permutation_map (fun item => newDate (start item)) Hp)).
  rewrite (maxTime_perm _ _ (Permutation_map (fun item => newDate (end_ item)) Hp)).
  reflexivity.
Qed.

Lemma calculateDateRange_order_free_witness :
  calculateDateRange newYork2024 0 (Some [itemA; itemBadStart; itemC])
  = calculateDateRange newYork2024 0 (Some [itemC; itemA; itemBadStart]).
Proof.
  apply (calculateDateRange_order_free newYork2024 0
           [itemA; itemBadStart; itemC] [itemC; itemA; itemBadStart]).
  apply Permutation_sym. apply (Permutation_cons_append [itemA; itemBadStart] itemC).
Defined.

(** X17.  With no items, in a zone whose offset never changes, with a
    clock that is not before 1970 and at least 32 days inside what a
    [Date] can hold, the timeline is 30 days long, at whatever time of the
    day the range is computed. *)
Theorem totalDays_empty (tz : TimeZone) (now : Z) :
  fixedOffset tz ->
  0 <= now ->
  inDateRange (now / MS_PER_DAY + 32) ->
  totalDays (calculateDateRange tz now (Some [])) = Some 30
  /\ totalDays (calculateDateRange tz now None) = Some 30.
Proof.
  intros [c [Hl Hu]] _ _.
  assert (H : totalDays (defaultRange tz now) = Some 30).
  { unfold totalDays, defaultRange, midnightPlusDays, ceilDays. simpl.
    rewrite Hu, Hl. f_equal.
    pose proof MS_PER_DAY_pos as Hpos.
    pose proof (Z.div_mod (now + c) MS_PER_DAY) as Hdm.
    pose proof (Z.mod_pos_bound (now + c) MS_PER_DAY Hpos) as Hr.
    replace (- (((now + c) / MS_PER_DAY + 30) * MS_PER_DAY - c - now))
      with ((now + c) mod MS_PER_DAY + (-30) * MS_PER_DAY) by lia.
    rewrite Z.div_add by lia. rewrite Z.div_small by lia. reflexivity. }
  split; exact H.
Qed.

Lemma totalDays_empty_witness :
  totalDays (calculateDateRange (fixedZone (-5 * MS_PER_HOUR))
               (20016 * MS_PER_DAY + 4 * MS_PER_HOUR) (Some []))
  = Some 30
  /\ totalDays (calculateDateRange (fixedZone (-5 * MS_PER_HOUR))
                  (20016 * MS_PER_DAY + 4 * MS_PER_HOUR) None)
     = Some 30.
Proof.
  apply (totalDays_empty (fixedZone (-5 * MS_PER_HOUR))
           (20016 * MS_PER_DAY + 4 * MS_PER_HOUR)).
  - apply fixedZone_fixed.
  - vm_compute. discriminate.
  - vm_compute. split; discriminate.
Defined.

Lemma min_le_max (its : list Item) (lo hi : Z) :
  Forall (fun i => startDay i <= endDay i) its ->
  isMinOf lo (map startDay its) -> isMaxOf hi (map endDay its) ->
  lo <= hi.
Proof.
  intros Hwf [Hin _] [_ Hmax].
  apply in_map_iff in Hin. destruct Hin as [i [<- Hi]].
  rewrite Forall_forall in Hwf, Hmax.
  specialize (Hwf i Hi).
  specialize (Hmax (endDay i) (in_map endDay its i Hi)). simpl in Hmax. lia.
Qed.

Lemma totalDays_padded (lo hi : Z) :
  totalDays {| minDate := newDate (YMD (lo - 7));
               maxDate := newDate (YMD (hi + 7)) |}
  = Some (Z.max 1 (hi - lo + 14)).
Proof.
  unfold totalDays. cbn [minDate maxDate].
  rewrite ceilDays_days. simpl. f_equal. f_equal. lia.
Qed.

(** X18.  In a zone whose offset never changes, for a non-empty array of
    items with valid dates whose padded days are inside what a [Date] can
    hold, the timeline is as many days long as from the least start to
    the greatest end, plus 14, and never less than 1 day; when every item
    has start <= end this is at least 14 days. *)
Theorem totalDays_span (tz : TimeZone) (now : Z) (its : list Item) :
  fixedOffset tz ->
  its <> [] ->
  Forall (fun i => hasValidDates i = true) its ->
  Forall (fun i => inDateRange (startDay i - 7) /\ inDateRange (endDay i + 7))
         its ->
  exists lo hi,
    isMinOf lo (map startDay its)
    /\ isMaxOf hi (map endDay its)
    /\ totalDays (calculateDateRange tz now (Some its))
       = Some (Z.max 1 (hi - lo + 14))
    /\ (Forall (fun i => startDay i <= endDay i) its ->
        totalDays (calculateDateRange tz now (Some its)) = Some (hi - lo + 14)
        /\ 14 <= hi - lo + 14).
Proof.
  intros Hfix Hne Hv _.
  destruct (calculateDateRange_padded tz now its Hfix Hne Hv)
    as [lo [hi [Hlo [Hhi ->]]]].
  exists lo, hi. split; [exact Hlo|]. split; [exact Hhi|].
  rewrite totalDays_padded. split; [reflexivity|].
  intros Hwf. pose proof (min_le_max its lo hi Hwf Hlo Hhi).
  split; [f_equal|]; lia.
Qed.

Lemma totalDays_span_witness :
  exists lo hi,
    isMinOf lo (map startDay [itemB; itemA; itemC])
    /\ isMaxOf hi (map endDay [itemB; itemA; itemC])
    /\ totalDays (calculateDateRange (fixedZone (9 * MS_PER_HOUR)) 0
                    (Some [itemB; itemA; itemC]))
       = Some (Z.max 1 (hi - lo + 14))
    /\ (Forall (fun i => startDay i <= endDay i) [itemB; itemA; itemC] ->
        totalDays (calculateDateRange (fixedZone (9 * MS_PER_HOUR)) 0
                     (Some [itemB; itemA; itemC]))
        = Some (hi - lo + 14)
        /\ 14 <= hi - lo + 14).
Proof.
  apply (totalDays_span (fixedZone (9 * MS_PER_HOUR)) 0 [itemB; itemA; itemC]).
  - apply fixedZone_fixed.
  - discriminate.
  - repeat constructor.
  - repeat constructor; vm_compute; discriminate.
Defined.

(** ** Item geometry *)

(** X19.  In a zone whose offset never changes, with valid dates whose
    padded days are inside what a [Date] can hold, start <= end on every
    item and a zoom level of at least 0.5, the bar of every item lies
    inside the timeline: its left edge is at least 7 day widths from the
    left end, and its right edge, [left + width] with the minimum width
    of 80 counted, is not past the right end
    [totalDays * 24 * zoomLevel]. *)
Theorem item_bar_inside_timeline (tz : TimeZone) (now : Z) (its : list Item)
  (item : Item) (zoom : Q) :
  fixedOffset tz ->
  its <> [] ->
  Forall (fun i => hasValidDates i = true) its ->
  Forall (fun i => inDateRange (startDay i - 7) /\ inDateRange (endDay i + 7))
         its ->
  Forall (fun i => startDay i <= endDay i) its ->
  In item its ->
  (1 # 2 <= zoom)%Q ->
  exists l w t,
    left (getItemStyle (minDate (calculateDateRange tz now (Some its))) zoom item)
    = Some l
    /\ width (getItemStyle (minDate (calculateDateRange tz now (Some its))) zoom
                item)
       = Some w
    /\ timelineWidth (calculateDateRange tz now (Some its)) zoom = Some t
    /\ (7 * (24 * zoom) <= l)%Q
    /\ (l + w <= t)%Q.
Proof.
  intros Hfix Hne Hv _ Hwf Hin Hz.
  destruct (calculateDateRange_padded tz now its Hfix Hne Hv)
    as [lo [hi [Hlo [Hhi ->]]]].
  pose proof (min_le_max its lo hi Hwf Hlo Hhi) as Hlh.
  assert (Hvi : hasValidDates item = true).
  { rewrite Forall_forall in Hv. now apply Hv. }
  assert (Hse : startDay item <= endDay item).
  { rewrite Forall_forall in Hwf. now apply Hwf. }
  assert (Hls : lo <= startDay item).
  { destruct Hlo as [_ Hall]. rewrite Forall_forall in Hall.
    apply (Hall (startDay item)). now apply in_map. }
  assert (Heh : endDay item <= hi).
  { destruct Hhi as [_ Hall]. rewrite Forall_forall in Hall.
    apply (Hall (endDay item)). now apply in_map. }
  cbn [minDate].
  rewrite (getItemStyle_days item (lo - 7) (startDay item) (endDay item) zoom
             (valid_start item Hvi) (valid_end item Hvi)).
  unfold timelineWidth. rewrite totalDays_padded.
  rewrite Z.max_r by lia. cbn [left width option_map].
  do 3 eexists. split; [reflexivity|]. split; [reflexivity|].
  split; [reflexivity|].
  set (a := startDay item - (lo - 7)).
  set (b := endDay item - startDay item).
  set (T := hi - lo + 14).
  assert (Ha : (7 <= inject_Z a)%Q).
  { change 7%Q with (inject_Z 7). rewrite <- Zle_Qle. unfold a. lia. }
  assert (Hb : (0 <= inject_Z b)%Q).
  { change 0%Q with (inject_Z 0). rewrite <- Zle_Qle. unfold b. lia. }
  assert (HT : (inject_Z a + inject_Z b + 7 <= inject_Z T)%Q).
  { change 7%Q with (inject_Z 7). rewrite <- !inject_Z_plus, <- Zle_Qle.
    unfold a, b, T. lia. }
  generalize dependent (inject_Z a). generalize dependent (inject_Z b).
  generalize dependent (inject_Z T).
  intros qT qb Hb qa Ha HT. split.
  - nra.
  - destruct (Q.max_spec (qb * 24 * zoom) 80) as [[_ ->]|[_ ->]]; nra.
Qed.

Lemma item_bar_inside_timeline_witness :
  exists l w t,
    left (getItemStyle
            (minDate (calculateDateRange (fixedZone (9 * MS_PER_HOUR)) 0
                        (Some [itemB; itemA; itemC])))
            (1 # 2) itemC)
    = Some l
    /\ width (getItemStyle
                (minDate (calculateDateRange (fixedZone (9 * MS_PER_HOUR)) 0
                            (Some [itemB; itemA; itemC])))
                (1 # 2) itemC)
       = Some w
    /\ timelineWidth (calculateDateRange (fixedZone (9 * MS_PER_HOUR)) 0
                        (Some [itemB; itemA; itemC])) (1 # 2)
       = Some t
    /\ (7 * (24 * (1 # 2)) <= l)%Q
    /\ (l + w <= t)%Q.
Proof.
  apply (item_bar_inside_timeline (fixedZone (9 * MS_PER_HOUR)) 0
           [itemB; itemA; itemC] itemC (1 # 2)).
  - apply fixedZone_fixed.
  - discriminate.
  - repeat constructor.
  - repeat constructor; vm_compute; discriminate.
  - repeat constructor; vm_compute; discriminate.
  - right. right. now left.
  - apply Qle_refl.
Defined.

(** X20.  [getItemStyle] with unparseable dates: nothing throws, so the
    style of the [catch] is not what is returned.  [left] is NaN exactly
    when the start of the item or [minDate] is invalid, [width] is NaN
    exactly when the start, the end or [minDate] is invalid, and a width
    that is a number is at least 80. *)
Theorem getItemStyle_invalid_dates (minD : JsDate) (zoom : Q) (item : Item) :
  (left (getItemStyle minD zoom item) = None
   <-> parseable (start item) = false \/ minD = None)
  /\ (width (getItemStyle minD zoom item) = None
      <-> parseable (start item) = false \/ parseable (end_ item) = false
          \/ minD = None)
  /\ (forall w, width (getItemStyle minD zoom item) = Some w -> (80 <= w)%Q).
Proof.
  unfold getItemStyle, itemStyle, try_catch. cbv beta iota zeta.
  cbn [left width].
  destruct (start item) as [s|], (end_ item) as [e|], minD as [m|];
    simpl; repeat split; try tauto; try discriminate;
    try (intros [H|H]; discriminate);
    try (intros [H|[H|H]]; discriminate);
    try (intros w [= <-]; apply Q.le_max_r);
    auto.
Qed.

(** ** More on the lanes *)

Lemma Subseq_StronglySorted {A : Type} (R : A -> A -> Prop) (l1 l2 : list A) :
  Subseq l1 l2 -> StronglySorted R l2 -> StronglySorted R l1.
Proof.
  induction 1 as [|x l1 l2 Hs IH|x l1 l2 Hs IH]; intros H2.
  - constructor.
  - inversion H2; subst. now apply IH.
  - inversion H2 as [|? ? Hss Hall]; subst.
    constructor; [now apply IH|].
    eapply Subseq_Forall; eassumption.
Qed.

(** X21.  With valid dates the lanes are ordered by the start of their
    first item: the first item of a lane starts no later than the first
    item of every lane after it. *)
Theorem lanes_ordered_by_first_start (its : list Item) :
  Forall (fun i => hasValidDates i = true) its ->
  exists lanes,
    assignLanesToItems (Some its) = Ok lanes
    /\ StronglySorted leStart (firstItems lanes).
Proof.
  intros Hv.
  destruct (assignLanesToItems_valid its Hv) as [lanes [H [_ [_ [Hseq _]]]]].
  exists lanes. split; [exact H|].
  eapply Subseq_StronglySorted; [exact Hseq|].
  now apply sortByStart_sorted.
Qed.

Lemma lanes_ordered_by_first_start_witness :
  exists lanes,
    assignLanesToItems (Some [itemC; itemB; itemA]) = Ok lanes
    /\ StronglySorted leStart (firstItems lanes).
Proof.
  apply (lanes_ordered_by_first_start [itemC; itemB; itemA]).
  repeat constructor.
Defined.

Lemma length_concat_nonempty (lanes : list Lane) :
  Forall (fun lane => lane <> []) lanes ->
  (length lanes <= length (concat lanes))%nat.
Proof.
  induction 1 as [|lane lanes Hne _ IH]; simpl; [lia|].
  rewrite length_app. destruct lane; [congruence|]. simpl. lia.
Qed.

(** X22.  Whatever the dates are, there are at most as many lanes as
    items, and at least one lane when there is an item. *)
Theorem lane_count_bounds (its : list Item) :
  exists lanes,
    assignLanesToItems (Some its) = Ok lanes
    /\ (length lanes <= length its)%nat
    /\ (its <> [] -> (1 <= length lanes)%nat).
Proof.
  destruct (assignLanesToItems_any its) as [lanes [H [Hne [_ Hp]]]].
  exists lanes. split; [exact H|]. split.
  - rewrite <- (Permutation_length Hp). now apply length_concat_nonempty.
  - intros Hits. destruct lanes as [|lane lanes]; [|simpl; lia].
    simpl in Hp. apply Permutation_nil in Hp. congruence.
Qed.

(** ** After the drag *)

(** X23.  After [endDrag] pointer moves change nothing, however many
    there are and wherever the pointer goes, in any time zone. *)
Theorem pointerMoves_after_endDrag (tz : TimeZone) (st : State) (xs : list Q) :
  pointerMoves tz xs (endDrag st) = Ok (endDrag st)
  /\ items (endDrag st) = items st.
Proof.
  split; [|reflexivity].
  unfold pointerMoves. induction xs as [|x xs IH]; [reflexivity|].
  simpl. exact IH.
Qed.
